(** * Entity reconciliation engine: a shallow embedding of
    [reconciliation-service/app/zingg_client.py] and the properties of
    deduplication, matching, merging and confidence aggregation.

    Modelling conventions
    - a Python [dict] with string keys and a pandas [Series] are finite maps
      [gmap string _]; a Python [set] of ints is a [gset nat];
    - a [DataFrame] is the list of its rows, each with its index label;
      positional access ([iloc], [range(len(df))]) and label access
      ([iterrows], [drop]) are kept apart, as pandas does;
    - Python floats are exact rationals [Q]; strings are byte strings;
    - the string metric [fuzz.ratio] (package fuzzywuzzy) and [np.std] are
      library functions: they are parameters of the development. *)

From Stdlib Require Import Ascii String QArith Qminmax Qabs.
From stdpp Require Import gmap strings list fin_maps pretty sorting.

Local Open Scope Z_scope.
Local Open Scope nat_scope.

(** ** Python values held by a record *)

(** JSON scalars as they sit in an object column of a frame: [None], the
    missing-value marker [nan], strings and integers. *)
Inductive value : Type :=
  | VNone
  | VNaN
  | VStr (s : string)
  | VInt (n : Z).

#[global] Instance value_eq_dec : EqDecision value.
Proof. solve_decision. Defined.

(** [str(v)] *)
Definition py_str (v : value) : string :=
  match v with
  | VNone => "None"
  | VNaN => "nan"
  | VStr s => s
  | VInt n => pretty n
  end.

(** [bool(v)]: [None], the empty string and [0] are falsy; [nan] is truthy. *)
Definition truthy (v : value) : bool :=
  match v with
  | VNone => false
  | VNaN => true
  | VStr s => negb (bool_decide (s = ""))
  | VInt n => negb (bool_decide (n = 0%Z))
  end.

(** [c.isspace()] on the ASCII range; strings are byte strings, and the
    trimming and case folding below act on ASCII only. *)
Definition py_isspace (c : ascii) : bool :=
  let n := nat_of_ascii c in
  ((9 <=? n) && (n <=? 13)) || ((28 <=? n) && (n <=? 32)).

Fixpoint py_lstrip (s : string) : string :=
  match s with
  | EmptyString => EmptyString
  | String c s' => if py_isspace c then py_lstrip s' else s
  end.

Fixpoint string_rev_onto (s acc : string) : string :=
  match s with
  | EmptyString => acc
  | String c s' => string_rev_onto s' (String c acc)
  end.

Definition py_rstrip (s : string) : string :=
  string_rev_onto (py_lstrip (string_rev_onto s "")) "".

(** [s.strip()] *)
Definition py_strip (s : string) : string := py_rstrip (py_lstrip s).

Definition ascii_lower (c : ascii) : ascii :=
  let n := nat_of_ascii c in
  if (65 <=? n) && (n <=? 90) then ascii_of_nat (n + 32) else c.

(** [s.lower()] *)
Fixpoint py_lower (s : string) : string :=
  match s with
  | EmptyString => EmptyString
  | String c s' => String (ascii_lower c) (py_lower s')
  end.

(** ** Records and frames *)

(** A record ([dict]) and a row of a frame ([pd.Series]). *)
Abbreviation Series := (gmap string value).

(** A frame: rows in positional order, each with its index label. *)
Abbreviation DataFrame := (list (nat * gmap string value)).

(** [pd.DataFrame(data)]: the columns are the union of the keys, a key a
    record lacks is filled with [nan], labels are [0 .. n-1]. The values
    stay as they are given: the dtype inference of pandas (an integer
    column with a missing value becoming a float column) is not modelled. *)
Definition columns (data : list Series) : gset string :=
  ⋃ (dom <$> data).

Definition fill_row (cols : gset string) (r : Series) : Series :=
  r ∪ gset_to_gmap VNaN cols.

Definition pd_DataFrame (data : list Series) : DataFrame :=
  imap (fun i r => (i, fill_row (columns data) r)) data.

(** [df.iloc[i]] *)
Definition iloc (df : DataFrame) (i : nat) : option Series :=
  snd <$> df !! i.

(** [(i, df.iloc[i]) for i in range(len(df))] *)
Definition positions (df : DataFrame) : list (nat * Series) :=
  imap (fun i lr => (i, lr.2)) df.

(** [df.to_dict('records')] *)
Definition to_records (df : DataFrame) : list Series := snd <$> df.

(** [series.get(key, default)] *)
Definition series_get (r : Series) (key : string) (dflt : value) : value :=
  default dflt (r !! key).

(** ** Numeric helpers *)

Definition Qsum (l : list Q) : Q := foldr Qplus 0%Q l.

(** [np.mean(l)] *)
Definition np_mean (l : list Q) : Q :=
  (Qsum l / inject_Z (Z.of_nat (length l)))%Q.

(** [np.min(l)] and [np.max(l)] on a non-empty list *)
Definition np_min (l : list Q) : Q :=
  match l with [] => 0%Q | x :: l' => foldl Qmin x l' end.
Definition np_max (l : list Q) : Q :=
  match l with [] => 0%Q | x :: l' => foldl Qmax x l' end.

(** ** Configuration *)

(** The [matching_config] dictionary: the three keys the engine reads, each
    possibly absent. *)
Record Config := {
  cfg_similarity_fields : option (list string);
  cfg_similarity_threshold : option Q;
  cfg_matching_fields : option (list string)
}.

(** [config.py]: the settings the claims refer to. *)
Record Settings := {
  default_similarity_threshold : Q;
  max_batch_size : Z;
  similarity_fields_weight : gmap string Q;
  merge_strategies : list string;
  default_merge_strategy : string
}.

Definition settings : Settings := {|
  default_similarity_threshold := (8 # 10)%Q;
  max_batch_size := 10000%Z;
  similarity_fields_weight :=
    <["name" := (4 # 10)%Q]> (<["email" := (3 # 10)%Q]>
      (<["phone" := (2 # 10)%Q]> (<["address" := (1 # 10)%Q]> ∅)));
  merge_strategies := ["latest_wins"; "first_wins"; "concatenate"];
  default_merge_strategy := "latest_wins"
|}.

(** ** Match candidates, merged records, jobs *)

(** The dictionary appended by [_find_entity_matches]. *)
Record Match := {
  entity_1_index : nat;
  entity_2_index : nat;
  entity_1_id : value;
  entity_2_id : value;
  similarity_score : Q;
  matching_fields : list string
}.

(** Values of an output dictionary of the merge: a scalar of a record, the
    float [_similarity_score], or the list [_merged_from]. *)
Inductive pyobj : Type :=
  | OVal (v : value)
  | OFloat (q : Q)
  | OList (l : list value).

Abbreviation OutRecord := (gmap string pyobj).

(** [row.to_dict()] seen as an output dictionary *)
Definition to_dict (r : Series) : OutRecord := OVal <$> r.

(** Exceptions the engine can raise on well-typed arguments. *)
Inductive exn : Type :=
  | IndexError.

(** An entry of [reconciliation_history]. *)
Record Job := {
  job_reconciliation_id : string;
  job_entity_type : string;
  job_original_records : nat;
  job_deduplicated_records : nat;
  job_matched_pairs : nat;
  job_execution_time : Q;
  job_timestamp : Z;
  job_status : string
}.

(** The dictionary returned by [reconcile_entities]. *)
Record Reconciliation := {
  reconciliation_id : string;
  original_records : nat;
  deduplicated_records : nat;
  matched_pairs : nat;
  merged_records : list OutRecord;
  confidence_scores : gmap string Q;
  execution_time : Q
}.

(** The state of a [ZinggClient] the operations read or write. *)
Record ZinggClient := {
  reconciliation_history : list Job
}.

(** What a call draws from its environment: [uuid.uuid4()], the elapsed
    wall-clock time and [datetime.now()]. *)
Record Env := {
  env_uuid4 : string;
  env_elapsed : Q;
  env_now : Z
}.

(** A small error monad for the code that can raise. *)
Definition result (A : Type) : Type := exn + A.
Definition raise {A} (e : exn) : result A := inl e.

#[global] Instance result_ret : MRet result := fun A a => inr a.
#[global] Instance result_bind : MBind result := fun A B k m =>
  match m with
  | inl e => inl e
  | inr a => k a
  end.

Fixpoint foldM {A B} (f : A -> B -> result A) (a : A) (l : list B) : result A :=
  match l with
  | [] => mret a
  | b :: l' => a' ← f a b; foldM f a' l'
  end.

(** [df.iloc[i]] where an index out of range raises. Positions are natural
    numbers, as the matcher produces them; the negative positions of
    pandas, which count from the end, are outside the model. *)
Definition iloc_or_raise (df : DataFrame) (i : nat) : result Series :=
  match iloc df i with
  | Some r => mret r
  | None => raise IndexError
  end.

(** ** The engine: [class ZinggClient] *)

Section Engine.

(** [fuzz.ratio(s1, s2)]: an integer similarity percentage. *)
Variable fuzz_ratio : string -> string -> Z.

(** [np.std(l)] *)
Variable np_std : list Q -> Q.

(** *** SimilarityScorer *)

(** [str(record[field]).strip().lower()] *)
Definition normalize (v : value) : string :=
  py_lower (py_strip (py_str v)).

(** The body of the loop over [fields]: the similarity the field appends to
    [similarities], if it appends one. *)
Definition field_similarity (record1 record2 : Series) (field : string)
  : option Q :=
  match record1 !! field, record2 !! field with
  | Some v1, Some v2 =>
      let val1 := normalize v1 in
      let val2 := normalize v2 in
      if negb (bool_decide (val1 = "")) && negb (bool_decide (val2 = ""))
      then Some (inject_Z (fuzz_ratio val1 val2) / 100)%Q
      else None
  | _, _ => None
  end.

(** [similarities] collects, in the order of [fields], the similarity of
    every field that passes both tests of the loop. *)
Definition _calculate_record_similarity
  (record1 record2 : Series) (fields : list string) : Q :=
  let similarities := omap (field_similarity record1 record2) fields in
  match similarities with
  | [] => 0%Q
  | _ :: _ => np_mean similarities
  end.

(** *** Deduplicator *)

(** [drop_duplicates] compares rows with missing values ([None], [nan])
    identified. *)
Definition na_key (v : value) : value :=
  match v with
  | VNone => VNaN
  | _ => v
  end.

Definition row_key (r : Series) : Series := na_key <$> r.

(** The rows [drop_duplicates] keeps of a frame with columns: the first
    occurrence of every row. *)
Fixpoint drop_duplicates_from (seen : list Series) (df : DataFrame)
  : DataFrame :=
  match df with
  | [] => []
  | (lbl, r) :: df' =>
      if bool_decide (row_key r ∈ seen)
      then drop_duplicates_from seen df'
      else (lbl, r) :: drop_duplicates_from (row_key r :: seen) df'
  end.

(** [df.empty]: the frame has no row or no column. *)
Definition df_empty (df : DataFrame) : bool :=
  bool_decide (⋃ ((fun lr => dom lr.2) <$> df) = (∅ : gset string)).

(** [df.drop_duplicates()] returns an empty frame as it is. *)
Definition drop_duplicates (df : DataFrame) : DataFrame :=
  if df_empty df then df else drop_duplicates_from [] df.

(** [df.index[list(ps)]]: the labels at the positions [ps]. *)
Definition index_at (df : DataFrame) (ps : gset nat) : gset nat :=
  list_to_set (omap (fun p => fst <$> df !! p) (elements ps)).

(** [df.drop(labels)] *)
Definition df_drop (df : DataFrame) (labels : gset nat) : DataFrame :=
  filter (fun lr => lr.1 ∉ labels) df.

(** The loop [for j in range(i + 1, len(df))] for a fixed [i]. *)
Definition dedup_inner (fields : list string) (threshold : Q)
  (ri : Series) (to_remove : gset nat) (rest : list (nat * Series))
  : gset nat :=
  foldl (fun to_remove '(j, rj) =>
           if bool_decide (j ∈ to_remove) then to_remove
           else
             let similarity_score :=
               _calculate_record_similarity ri rj fields in
             if Qle_bool threshold similarity_score
             then {[j]} ∪ to_remove
             else to_remove)
        to_remove rest.

(** The loop [for i in range(len(df))]. *)
Definition dedup_outer (fields : list string) (threshold : Q)
  (df : DataFrame) : gset nat :=
  foldl (fun to_remove '(i, ri) =>
           if bool_decide (i ∈ to_remove) then to_remove
           else dedup_inner fields threshold ri to_remove
                  (drop (S i) (positions df)))
        ∅ (positions df).

Definition _deduplicate_dataframe (df : DataFrame) (config : Config)
  : DataFrame :=
  let df := drop_duplicates df in
  let similarity_fields := default [] (cfg_similarity_fields config) in
  let threshold := default (9 # 10)%Q (cfg_similarity_threshold config) in
  match similarity_fields with
  | [] => df
  | _ :: _ =>
      let to_remove := dedup_outer similarity_fields threshold df in
      df_drop df (index_at df to_remove)
  end.

(** *** Matcher *)

Definition match_inner (fields : list string) (threshold : Q)
  (i : nat) (ri : Series) (matches : list Match)
  (rest : list (nat * Series)) : list Match :=
  foldl (fun matches '(j, rj) =>
           let similarity_score :=
             _calculate_record_similarity ri rj fields in
           if Qle_bool threshold similarity_score
           then matches ++
                [{| entity_1_index := i;
                    entity_2_index := j;
                    entity_1_id := series_get ri "id" (VStr (pretty i));
                    entity_2_id := series_get rj "id" (VStr (pretty j));
                    similarity_score := similarity_score;
                    matching_fields := fields |}]
           else matches)
        matches rest.

Definition _find_entity_matches (df : DataFrame) (config : Config)
  (threshold : Q) : list Match :=
  let matching_fields := default [] (cfg_matching_fields config) in
  match matching_fields with
  | [] => []
  | _ :: _ =>
      foldl (fun matches '(i, ri) =>
               match_inner matching_fields threshold i ri matches
                 (drop (S i) (positions df)))
            [] (positions df)
  end.

(** *** MergeEngine: the three strategies *)

Definition _merge_latest_wins (record1 record2 : Series) : Series :=
  map_fold (fun key value merged =>
              if negb (bool_decide (value = VNone))
                 && negb (bool_decide (value = VStr ""))
              then <[key := value]> merged
              else merged)
           record1 record2.

Definition _merge_first_wins (record1 record2 : Series) : Series :=
  map_fold (fun key value merged =>
              match merged !! key with
              | None => <[key := value]> merged
              | Some old =>
                  if bool_decide (old = VNone) || bool_decide (old = VStr "")
                  then <[key := value]> merged
                  else merged
              end)
           record1 record2.

(** The value [_merge_concatenate] stores under [key]. *)
Definition concatenate_value (record1 record2 : Series) (key : string)
  : value :=
  let val1 := series_get record1 key (VStr "") in
  let val2 := series_get record2 key (VStr "") in
  if truthy val1 && truthy val2
  then VStr (py_str val1 ++ " | " ++ py_str val2)
  else if truthy val1 then val1
  else val2.

Definition _merge_concatenate (record1 record2 : Series) : Series :=
  set_fold (fun key merged =>
              <[key := concatenate_value record1 record2 key]> merged)
           ∅ (dom record1 ∪ dom record2).

(** The [if]/[elif] chain on [merge_strategy]. *)
Definition apply_strategy (merge_strategy : string)
  (record1 record2 : Series) : Series :=
  if bool_decide (merge_strategy = "latest_wins")
  then _merge_latest_wins record1 record2
  else if bool_decide (merge_strategy = "first_wins")
  then _merge_first_wins record1 record2
  else if bool_decide (merge_strategy = "concatenate")
  then _merge_concatenate record1 record2
  else record1.

(** [dict.get(key)] with the default [None] *)
Definition dict_get (r : Series) (key : string) : value :=
  default VNone (r !! key).

(** One iteration of [for match in matches]. *)
Definition merge_step (df : DataFrame) (merge_strategy : string)
  (st : list OutRecord * gset nat) (m : Match)
  : result (list OutRecord * gset nat) :=
  let '(merged_records, processed_indices) := st in
  let idx1 := entity_1_index m in
  let idx2 := entity_2_index m in
  if bool_decide (idx1 ∈ processed_indices)
     || bool_decide (idx2 ∈ processed_indices)
  then mret st
  else
    record1 ← iloc_or_raise df idx1;
    record2 ← iloc_or_raise df idx2;
    let merged_record := to_dict (apply_strategy merge_strategy record1 record2) in
    let merged_record :=
      <["_merged_from" := OList [dict_get record1 "id"; dict_get record2 "id"]]>
        merged_record in
    let merged_record :=
      <["_similarity_score" := OFloat (similarity_score m)]> merged_record in
    mret (merged_records ++ [merged_record],
          {[idx1; idx2]} ∪ processed_indices).

(** [for i, row in df.iterrows()]: [i] is the index label of the row. *)
Definition unmatched_rows (df : DataFrame) (processed_indices : gset nat)
  : list OutRecord :=
  (fun lr => to_dict lr.2)
    <$> filter (fun lr => lr.1 ∉ processed_indices) df.

Definition _merge_matched_entities (df : DataFrame) (matches : list Match)
  (merge_strategy : string) : result (list OutRecord) :=
  '(merged_records, processed_indices) ←
    foldM (merge_step df merge_strategy) ([], ∅) matches;
  mret (merged_records ++ unmatched_rows df processed_indices).

(** *** ConfidenceAggregator *)

Definition count_if (p : Q -> bool) (l : list Q) : Q :=
  inject_Z (Z.of_nat (length (filter (fun s => p s = true) l))).

Definition _calculate_confidence_scores (matches : list Match)
  : gmap string Q :=
  match matches with
  | [] => ∅
  | _ :: _ =>
      let scores := similarity_score <$> matches in
      <["average_confidence" := np_mean scores]> (
      <["min_confidence" := np_min scores]> (
      <["max_confidence" := np_max scores]> (
      <["std_confidence" := np_std scores]> (
      <["high_confidence_count" :=
          count_if (fun s => negb (Qle_bool s (9 # 10))) scores]> (
      <["medium_confidence_count" :=
          count_if (fun s => Qle_bool (7 # 10) s && Qle_bool s (9 # 10))
            scores]> (
      <["low_confidence_count" :=
          count_if (fun s => negb (Qle_bool (7 # 10) s)) scores]> ∅))))))
  end.

(** *** Entry points *)

Definition find_matches (data : list Series) (matching_config : Config)
  (threshold : Q) : list Match :=
  let df := pd_DataFrame data in
  _find_entity_matches df matching_config threshold.

Definition deduplicate_data (data : list Series) (config : Config)
  : list Series :=
  let df := pd_DataFrame data in
  let deduplicated_df := _deduplicate_dataframe df config in
  to_records deduplicated_df.

(** [reconcile_entities]: the new state of the client and the value returned
    or the exception raised. An exception leaves the history as it was: the
    entry is appended only after the merge. *)
Definition reconcile_entities (env : Env) (self : ZinggClient)
  (data : list Series) (matching_config : Config) (entity_type : string)
  (threshold : Q) (deduplication : bool) (merge_strategy : string)
  : ZinggClient * result Reconciliation :=
  let df := pd_DataFrame data in
  let original_records := length df in
  let df := if deduplication
            then _deduplicate_dataframe df matching_config
            else df in
  let deduplicated_records := length df in
  let matches := _find_entity_matches df matching_config threshold in
  let matched_pairs := length matches in
  match _merge_matched_entities df matches merge_strategy with
  | inl e => (self, raise e)
  | inr merged_records =>
      let confidence_scores := _calculate_confidence_scores matches in
      let job := {| job_reconciliation_id := env_uuid4 env;
                    job_entity_type := entity_type;
                    job_original_records := original_records;
                    job_deduplicated_records := deduplicated_records;
                    job_matched_pairs := matched_pairs;
                    job_execution_time := env_elapsed env;
                    job_timestamp := env_now env;
                    job_status := "completed" |} in
      ({| reconciliation_history := reconciliation_history self ++ [job] |},
       mret {| reconciliation_id := env_uuid4 env;
               original_records := original_records;
               deduplicated_records := deduplicated_records;
               matched_pairs := matched_pairs;
               merged_records := merged_records;
               confidence_scores := confidence_scores;
               execution_time := env_elapsed env |})
  end.

End Engine.

(** ** A reference instance of the string metric

    The normalised insertion/deletion similarity
    [round(100 * 2 * lcs / (len a + len b))], with the short cuts of
    [fuzz.ratio] for equal and for empty arguments. It instantiates the
    parameter [fuzz_ratio] where the engine is run on concrete records. *)

Fixpoint lcs (a : string) : string -> nat :=
  match a with
  | EmptyString => fun _ => 0
  | String x a' =>
      fix lcs_row (b : string) : nat :=
        match b with
        | EmptyString => 0
        | String y b' =>
            if Ascii.eqb x y then S (lcs a' b')
            else Nat.max (lcs a' b) (lcs_row b')
        end
  end.

(** [int(round(num / den))], rounding half to even *)
Definition round_div (num den : Z) : Z :=
  let q := (num / den)%Z in
  let r := (num mod den)%Z in
  if (2 * r <? den)%Z then q
  else if (den <? 2 * r)%Z then (q + 1)%Z
  else if Z.even q then q else (q + 1)%Z.

Definition lcs_ratio (a b : string) : Z :=
  if bool_decide (a = b) then 100%Z
  else if bool_decide (a = "") || bool_decide (b = "") then 0%Z
  else round_div (200 * Z.of_nat (lcs a b))
                 (Z.of_nat (String.length a + String.length b)).

(** ** The pure-Python backend of [fuzz.ratio]

    Without the package python-Levenshtein, fuzzywuzzy computes
    [fuzz.ratio] with [difflib.SequenceMatcher]: the ratio is twice the
    total size of the matching blocks over the sum of the two lengths, the
    blocks being found by taking the longest common block (the one that
    starts earliest in the first string and, among those, earliest in the
    second) and recursing on the pieces to its left and to its right.
    Strings of fewer than 200 characters, for which [difflib] sets no
    element aside as popular. *)

Fixpoint common_prefix_length (a b : list ascii) : nat :=
  match a, b with
  | x :: a', y :: b' =>
      if Ascii.eqb x y then S (common_prefix_length a' b') else 0
  | _, _ => 0
  end.

(** The scan of the second string for a block that starts at position [i]
    of the first; [best] is [(besti, bestj, bestsize)] and is replaced by a
    strictly longer block only. *)
Fixpoint longest_match_at (ai b : list ascii) (i j : nat)
  (best : nat * nat * nat) : nat * nat * nat :=
  match b with
  | [] => best
  | _ :: b' =>
      let k := common_prefix_length ai b in
      let best := if best.2 <? k then (i, j, k) else best in
      longest_match_at ai b' i (S j) best
  end.

Fixpoint longest_match_from (a b : list ascii) (i : nat)
  (best : nat * nat * nat) : nat * nat * nat :=
  match a with
  | [] => best
  | _ :: a' => longest_match_from a' b (S i) (longest_match_at a b i 0 best)
  end.

(** [find_longest_match] over the whole of both strings *)
Definition find_longest_match (a b : list ascii) : nat * nat * nat :=
  longest_match_from a b 0 (0, 0, 0).

(** The total size of the blocks of [get_matching_blocks]; every recursive
    call is on strictly shorter pieces, [fuel] bounds the depth. *)
Fixpoint matching_size (fuel : nat) (a b : list ascii) : nat :=
  match fuel with
  | 0 => 0
  | S fuel' =>
      let '(i, j, k) := find_longest_match a b in
      if k =? 0 then 0
      else matching_size fuel' (take i a) (take j b)
           + k
           + matching_size fuel' (drop (i + k) a) (drop (j + k) b)
  end.

(** [fuzz.ratio] on this backend: [int(round(100 * ratio))], after the
    short cuts for equal and for empty arguments. *)
Definition difflib_ratio (s1 s2 : string) : Z :=
  if bool_decide (s1 = s2) then 100%Z
  else if bool_decide (s1 = "") || bool_decide (s2 = "") then 0%Z
  else
    let a := list_ascii_of_string s1 in
    let b := list_ascii_of_string s2 in
    round_div (200 * Z.of_nat (matching_size (S (length a)) a b))
              (Z.of_nat (length a + length b)).

(** A metric that is not symmetric, to show what the symmetry of the score
    rests on: 100 when the first string is a prefix of the second. *)
Definition prefix_ratio (a b : string) : Z :=
  if String.prefix a b then 100%Z else 0%Z.

(** No property below depends on [np.std] (a square root, outside [Q]);
    where the engine is run on concrete records it is this placeholder. *)
Definition std_placeholder (l : list Q) : Q := 0%Q.

(** ** Specification-side scorer

    The scorer as the specification words it: a field contributes when both
    records have it with a value that is non-empty once trimmed and
    lower-cased; the score is the weighted mean of the similarities of the
    contributing fields, the weights being normalised by their sum, a field
    without a supplied weight weighing 1; with no contributing field the
    score is 0. *)

Section SpecScorer.

Variable fuzz_ratio : string -> string -> Z.

Definition contributes (record1 record2 : Series) (field : string) : bool :=
  match record1 !! field, record2 !! field with
  | Some v1, Some v2 =>
      negb (bool_decide (normalize v1 = ""))
      && negb (bool_decide (normalize v2 = ""))
  | _, _ => false
  end.

Definition spec_field_similarity (record1 record2 : Series) (field : string)
  : Q :=
  (inject_Z (fuzz_ratio (normalize (default VNone (record1 !! field)))
                        (normalize (default VNone (record2 !! field))))
   / 100)%Q.

Definition spec_weight (weights : gmap string Q) (field : string) : Q :=
  default 1%Q (weights !! field).

Definition spec_weighted_score (weights : gmap string Q)
  (record1 record2 : Series) (fields : list string) : Q :=
  let contributing :=
    filter (fun f => contributes record1 record2 f = true) fields in
  match contributing with
  | [] => 0%Q
  | _ :: _ =>
      (Qsum ((fun f => spec_weight weights f
                       * spec_field_similarity record1 record2 f) <$> contributing)
       / Qsum (spec_weight weights <$> contributing))%Q
  end.

End SpecScorer.

(** ** Specification-side statements used for comparison *)

(** The concatenated value as the specification words it: the two values
    joined by the separator exactly when both are non-empty and differ,
    otherwise whichever side has a value. *)
Definition spec_concatenate_value (record1 record2 : Series) (key : string)
  : value :=
  let val1 := series_get record1 key (VStr "") in
  let val2 := series_get record2 key (VStr "") in
  if truthy val1 && truthy val2 && negb (bool_decide (val1 = val2))
  then VStr (py_str val1 ++ " | " ++ py_str val2)
  else if truthy val1 then val1
  else val2.

(** The summary the specification expects for no match: a count of 0 and
    every statistic and band count present and equal to 0. *)
Definition zeroed_summary (summary : gmap string Q) : Prop :=
  summary !! "count" = Some 0%Q
  /\ summary !! "average_confidence" = Some 0%Q
  /\ summary !! "min_confidence" = Some 0%Q
  /\ summary !! "max_confidence" = Some 0%Q
  /\ summary !! "std_confidence" = Some 0%Q
  /\ summary !! "high_confidence_count" = Some 0%Q
  /\ summary !! "medium_confidence_count" = Some 0%Q
  /\ summary !! "low_confidence_count" = Some 0%Q.

(** The keys of the summary of a non-empty match list. *)
Definition summary_keys : gset string :=
  {[ "average_confidence"; "min_confidence"; "max_confidence";
     "std_confidence"; "high_confidence_count"; "medium_confidence_count";
     "low_confidence_count" ]}.

(** The accepted disjoint pairs of the specification: going through the
    match list in order, a pair is accepted when neither of its indices has
    been claimed by an earlier accepted pair. *)
Fixpoint claimed_pairs (claimed : gset nat) (matches : list Match)
  : list Match :=
  match matches with
  | [] => []
  | m :: matches' =>
      if bool_decide (entity_1_index m ∈ claimed)
         || bool_decide (entity_2_index m ∈ claimed)
      then claimed_pairs claimed matches'
      else m :: claimed_pairs
                  ({[entity_1_index m; entity_2_index m]} ∪ claimed) matches'
  end.

Definition pair_indices (m : Match) : list nat :=
  [entity_1_index m; entity_2_index m].

(** The positions claimed by a list of pairs. *)
Definition claimed_indices (pairs : list Match) : list nat :=
  pairs ≫= pair_indices.

(** The merged record of an accepted pair: the strategy applied to the two
    rows, with the provenance and the score. *)
Definition merged_record_of (df : DataFrame) (merge_strategy : string)
  (m : Match) : OutRecord :=
  let record1 := default ∅ (iloc df (entity_1_index m)) in
  let record2 := default ∅ (iloc df (entity_2_index m)) in
  <["_similarity_score" := OFloat (similarity_score m)]>
    (<["_merged_from" := OList [dict_get record1 "id"; dict_get record2 "id"]]>
       (to_dict (apply_strategy merge_strategy record1 record2))).

(** The rows at the positions no pair has claimed. *)
Definition unclaimed (df : DataFrame) (claimed : list nat)
  : list (nat * Series) :=
  filter (fun pr => pr.1 ∉ claimed) (positions df).

(** ** Predicates on match candidates and removals *)

(** The indices of a match candidate: [i < j < len(df)], and the candidate
    records the score of rows [i] and [j], which reaches the threshold. *)
Definition match_ok (fuzz_ratio : string -> string -> Z) (df : DataFrame)
  (fields : list string) (threshold : Q) (m : Match) : Prop :=
  entity_1_index m < entity_2_index m
  /\ exists ri rj,
       iloc df (entity_1_index m) = Some ri
       /\ iloc df (entity_2_index m) = Some rj
       /\ similarity_score m = _calculate_record_similarity fuzz_ratio ri rj fields
       /\ Qle_bool threshold (similarity_score m) = true.

(** Both indices of a match candidate lie in the frame. *)
Definition match_in_range (df : DataFrame) (m : Match) : Prop :=
  entity_1_index m < length df /\ entity_2_index m < length df.

(** A removed position is similar to an earlier position that is kept. *)
Definition removal_justified (fuzz_ratio : string -> string -> Z)
  (df : DataFrame) (fields : list string) (t : Q)
  (bound : nat) (to_remove : gset nat) : Prop :=
  forall j, j ∈ to_remove ->
    exists i ri rj,
      i < j /\ i < bound /\ (i ∉ to_remove)
      /\ iloc df i = Some ri /\ iloc df j = Some rj
      /\ Qle_bool t (_calculate_record_similarity fuzz_ratio ri rj fields) = true.

(** ** Sample records, configurations and clients *)

Definition customer (id : Z) (name email : string) : Series :=
  <["id" := VInt id]> (<["name" := VStr name]> (<["email" := VStr email]> ∅)).

Definition person (id : Z) (name : string) : Series :=
  <["id" := VInt id]> (<["name" := VStr name]> ∅).

Definition john_1 : Series := customer 1 "john doe" "j@x.com".
Definition john_2 : Series := customer 2 "John Doe" "j@x.com".
Definition john_3 : Series := customer 3 "john doe" "jd@y.org".

Definition ann : Series := person 1 "ann".
Definition bob : Series := person 2 "bob".
Definition bob_again : Series := person 3 "bob".

(** [{"matching_fields": fields}] *)
Definition match_on (fields : list string) : Config :=
  {| cfg_similarity_fields := None;
     cfg_similarity_threshold := None;
     cfg_matching_fields := Some fields |}.

(** [{"similarity_fields": fields, "similarity_threshold": t}] *)
Definition dedup_on (fields : list string) (t : Q) : Config :=
  {| cfg_similarity_fields := Some fields;
     cfg_similarity_threshold := Some t;
     cfg_matching_fields := None |}.

Definition sample_env : Env :=
  {| env_uuid4 := "7d44"; env_elapsed := (1 # 100)%Q; env_now := 0%Z |}.

Definition new_client : ZinggClient := {| reconciliation_history := [] |}.

(** A batch of [n] pairwise different records. *)
Definition batch (n : nat) : list Series :=
  (fun i => person (Z.of_nat i) (pretty i)) <$> seq 0 n.

(** ** The rest of the client: validation and the job history *)

(** [l[start:stop]]: a negative index counts from the end, and both ends
    are clamped to the list. *)
Definition py_slice {A} (l : list A) (start stop : Z) : list A :=
  let len := Z.of_nat (length l) in
  let adjust := fun k =>
    if (k <? 0)%Z then Z.max (k + len) 0 else Z.min k len in
  let start := adjust start in
  let stop := adjust stop in
  take (Z.to_nat (stop - start)) (drop (Z.to_nat start) l).

(** [get_reconciliation_history] *)
Definition get_reconciliation_history (self : ZinggClient)
  (limit offset : Z) : list Job :=
  py_slice (reconciliation_history self) offset (offset + limit).

(** [get_reconciliation_by_id]: the first entry with the identifier. *)
Fixpoint first_with_id (history : list Job) (reconciliation_id : string)
  : option Job :=
  match history with
  | [] => None
  | reconciliation :: history' =>
      if bool_decide (job_reconciliation_id reconciliation = reconciliation_id)
      then Some reconciliation
      else first_with_id history' reconciliation_id
  end.

Definition get_reconciliation_by_id (self : ZinggClient)
  (reconciliation_id : string) : option Job :=
  first_with_id (reconciliation_history self) reconciliation_id.

(** The [rules] dictionary of [validate_matches]: the one key it reads. *)
Record Rules := {
  rule_min_similarity_score : option Q
}.

(** A match dictionary after [validate_matches] has set its two keys. *)
Record ValidatedMatch := {
  validated : Match;
  is_valid : bool;
  validation_errors : list string
}.

Section Validation.

(** The text of a float inside an f-string. *)
Variable float_str : Q -> string.

Definition validate_match (rules : Rules) (m : Match) : ValidatedMatch :=
  let min_score := default (8 # 10)%Q (rule_min_similarity_score rules) in
  if negb (Qle_bool min_score (similarity_score m))
  then {| validated := m;
          is_valid := false;
          validation_errors :=
            ["Score de similarité trop faible: "
               +:+ float_str (similarity_score m)] |}
  else {| validated := m; is_valid := true; validation_errors := [] |}.

(** [validate_matches], on the dictionaries the matcher produces. *)
Definition validate_matches (matches : list Match) (rules : Rules)
  : list ValidatedMatch :=
  foldl (fun validated_matches m =>
           validated_matches ++ [validate_match rules m])
        [] matches.

End Validation.

(** ** The HTTP layer of [main.py] over the job history *)

Inductive response (A : Type) : Type :=
  | Ok (body : A)
  | HTTPException (status_code : nat) (detail : string).
Arguments Ok {A} body.
Arguments HTTPException {A} status_code detail.

(** [GET /reconciliations/{reconciliation_id}] *)
Definition get_reconciliation (zingg_client : ZinggClient)
  (reconciliation_id : string) : response Job :=
  match get_reconciliation_by_id zingg_client reconciliation_id with
  | None => HTTPException 404 "Réconciliation non trouvée"
  | Some reconciliation => Ok reconciliation
  end.

(** [GET /reconciliations?limit=..&offset=..] *)
Definition list_reconciliations (zingg_client : ZinggClient)
  (limit offset : Z) : response (list Job) :=
  Ok (get_reconciliation_history zingg_client limit offset).

(** ** Further predicates and samples *)

(** [value is None or value == ""] *)
Definition blank (v : value) : bool :=
  bool_decide (v = VNone) || bool_decide (v = VStr "").

(** The match candidate the matcher appends for rows [i] and [j]. *)
Definition candidate (fuzz_ratio : string -> string -> Z)
  (fields : list string) (i : nat) (ri : Series) (j : nat) (rj : Series)
  : Match :=
  {| entity_1_index := i;
     entity_2_index := j;
     entity_1_id := series_get ri "id" (VStr (pretty i));
     entity_2_id := series_get rj "id" (VStr (pretty j));
     similarity_score := _calculate_record_similarity fuzz_ratio ri rj fields;
     matching_fields := fields |}.

(** Lexicographic order on the index pairs of two match candidates. *)
Definition pair_lt (m1 m2 : Match) : Prop :=
  entity_1_index m1 < entity_1_index m2
  \/ (entity_1_index m1 = entity_1_index m2
      /\ entity_2_index m1 < entity_2_index m2).

(** The candidates the inner loop of the matcher appends for row [i]. *)
Definition matches_from (fuzz_ratio : string -> string -> Z)
  (fields : list string) (threshold : Q) (i : nat) (ri : Series)
  (rest : list (nat * Series)) : list Match :=
  omap (fun '(j, rj) =>
          if Qle_bool threshold
               (_calculate_record_similarity fuzz_ratio ri rj fields)
          then Some (candidate fuzz_ratio fields i ri j rj)
          else None)
       rest.

(** A record with its values replaced by their normalised strings. *)
Definition normalized (r : Series) : Series :=
  (fun v => VStr (normalize v)) <$> r.

(** [{"similarity_fields": fields, "similarity_threshold": t,
      "matching_fields": fields}] *)
Definition dedup_and_match_on (fields : list string) (t : Q) : Config :=
  {| cfg_similarity_fields := Some fields;
     cfg_similarity_threshold := Some t;
     cfg_matching_fields := Some fields |}.

Definition float_placeholder (q : Q) : string := "?".

Definition sample_job (id : string) (n : nat) : Job :=
  {| job_reconciliation_id := id;
     job_entity_type := "customer";
     job_original_records := n;
     job_deduplicated_records := n;
     job_matched_pairs := 0;
     job_execution_time := 0%Q;
     job_timestamp := 0%Z;
     job_status := "completed" |}.

Definition sample_client : ZinggClient :=
  {| reconciliation_history :=
       [sample_job "a" 1; sample_job "b" 2; sample_job "c" 3] |}.

Definition sample_match (i j : nat) (score : Q) : Match :=
  {| entity_1_index := i; entity_2_index := j;
     entity_1_id := VInt (Z.of_nat i); entity_2_id := VInt (Z.of_nat j);
     similarity_score := score; matching_fields := ["name"] |}.

(** * Properties *)

(** Membership goals over unions and singletons of index sets. *)
Ltac solve_set := set_unfold; intuition (subst; eauto; congruence).

(** ** The reference metric is symmetric and bounded *)

Lemma lcs_cons_cons x a y b :
  lcs (String x a) (String y b) =
  if Ascii.eqb x y then S (lcs a b)
  else Nat.max (lcs a (String y b)) (lcs (String x a) b).
Proof. reflexivity. Qed.

Lemma lcs_nil_r a : lcs a "" = 0.
Proof. destruct a; reflexivity. Qed.

Lemma lcs_sym a : forall b, lcs a b = lcs b a.
Proof.
  induction a as [|x a IHa]; intros b.
  - by rewrite lcs_nil_r.
  - induction b as [|y b IHb]; [reflexivity|].
    rewrite !lcs_cons_cons, (Ascii.eqb_sym y x).
    rewrite (IHa b), (IHa (String y b)), IHb.
    by rewrite Nat.max_comm.
Qed.

Lemma lcs_le_l a : forall b, lcs a b <= String.length a.
Proof.
  induction a as [|x a IHa]; intros b; [reflexivity|].
  induction b as [|y b IHb]; [simpl; lia|].
  rewrite lcs_cons_cons. specialize (IHa b) as H1.
  specialize (IHa (String y b)) as H2.
  destruct (Ascii.eqb x y); simpl String.length in *; lia.
Qed.

Lemma lcs_le_r a b : lcs a b <= String.length b.
Proof. rewrite lcs_sym. apply lcs_le_l. Qed.

Lemma round_div_range num den :
  (0 < den)%Z -> (0 <= num <= 100 * den)%Z ->
  (0 <= round_div num den <= 100)%Z.
Proof.
  intros Hden Hnum. unfold round_div.
  pose proof (Z.div_mod num den ltac:(lia)) as Hdm.
  pose proof (Z.mod_pos_bound num den Hden) as Hr.
  assert (0 <= num / den)%Z by (apply Z.div_pos; lia).
  assert (num / den <= 100)%Z.
  { apply Z.div_le_upper_bound; lia. }
  assert (num / den = 100 -> num mod den = 0)%Z by nia.
  destruct (2 * (num mod den) <? den)%Z eqn:E1; [lia|].
  apply Z.ltb_ge in E1.
  destruct (den <? 2 * (num mod den))%Z, (Z.even (num / den)); lia.
Qed.

Lemma lcs_ratio_sym a b : lcs_ratio a b = lcs_ratio b a.
Proof.
  unfold lcs_ratio.
  destruct (decide (a = b)) as [->|Hne]; [done|].
  rewrite (bool_decide_eq_false_2 (a = b)), (bool_decide_eq_false_2 (b = a))
    by congruence.
  by rewrite orb_comm, lcs_sym, Nat.add_comm.
Qed.

Lemma lcs_ratio_range a b : (0 <= lcs_ratio a b <= 100)%Z.
Proof.
  unfold lcs_ratio. case_bool_decide; [lia|].
  destruct (bool_decide (a = "") || bool_decide (b = "")) eqn:He; [lia|].
  apply orb_false_iff in He as [Ha Hb].
  apply bool_decide_eq_false in Ha, Hb.
  pose proof (lcs_le_l a b). pose proof (lcs_le_r a b).
  apply round_div_range.
  - destruct a; [done|]. simpl. lia.
  - lia.
Qed.

(** ** SimilarityScorer *)

Section ScorerProperties.

Variable fuzz_ratio : string -> string -> Z.

Local Abbreviation score := (_calculate_record_similarity fuzz_ratio).

Lemma field_similarity_sym record1 record2 field :
  (forall a b, fuzz_ratio a b = fuzz_ratio b a) ->
  field_similarity fuzz_ratio record1 record2 field
  = field_similarity fuzz_ratio record2 record1 field.
Proof.
  intros Hsym. unfold field_similarity.
  destruct (record1 !! field) as [v1|], (record2 !! field) as [v2|]; try done.
  cbv zeta. by rewrite andb_comm, Hsym.
Qed.

Lemma field_similarity_contributes record1 record2 field :
  field_similarity fuzz_ratio record1 record2 field =
  if contributes record1 record2 field
  then Some (spec_field_similarity fuzz_ratio record1 record2 field)
  else None.
Proof.
  unfold field_similarity, contributes, spec_field_similarity.
  destruct (record1 !! field) as [v1|], (record2 !! field) as [v2|]; try done.
Qed.

Lemma similarities_contributing record1 record2 (fields : list string) :
  omap (field_similarity fuzz_ratio record1 record2) fields =
  spec_field_similarity fuzz_ratio record1 record2
    <$> filter (fun f => contributes record1 record2 f = true) fields.
Proof.
  induction fields as [|f fields IH]; [done|].
  rewrite filter_cons. cbn [omap list_omap]. rewrite field_similarity_contributes, IH.
  destruct (contributes record1 record2 f) eqn:E.
  - rewrite decide_True by done. done.
  - rewrite decide_False by done. done.
Qed.

Lemma field_similarity_range record1 record2 field s :
  (forall a b, 0 <= fuzz_ratio a b <= 100)%Z ->
  field_similarity fuzz_ratio record1 record2 field = Some s ->
  (0 <= s <= 1)%Q.
Proof.
  intros Hr. unfold field_similarity.
  destruct (record1 !! field) as [v1|], (record2 !! field) as [v2|]; try done.
  cbv zeta. case_match; [|done]. intros [= <-].
  specialize (Hr (normalize v1) (normalize v2)).
  split.
  - apply Qle_shift_div_l; [reflexivity|].
    rewrite Qmult_0_l. change 0%Q with (inject_Z 0). rewrite <- Zle_Qle. lia.
  - apply Qle_shift_div_r; [reflexivity|].
    rewrite Qmult_1_l. change 100%Q with (inject_Z 100).
    rewrite <- Zle_Qle. lia.
Qed.

Lemma Qsum_range (l : list Q) :
  (forall x, x ∈ l -> (0 <= x <= 1)%Q) ->
  (0 <= Qsum l <= inject_Z (Z.of_nat (length l)))%Q.
Proof.
  induction l as [|x l IH]; intros Hl.
  - cbn. split; apply Qle_refl.
  - destruct IH as [IH0 IH1]; [intros y Hy; apply Hl; by right|].
    destruct (Hl x) as [Hx0 Hx1]; [by left|].
    cbn [Qsum foldr length]. fold (Qsum l). split.
    + change 0%Q with (0 + 0)%Q. by apply Qplus_le_compat.
    + rewrite Nat2Z.inj_succ, <- Z.add_1_l, inject_Z_plus.
      by apply Qplus_le_compat.
Qed.

Lemma np_mean_range (l : list Q) :
  l <> [] ->
  (forall x, x ∈ l -> (0 <= x <= 1)%Q) ->
  (0 <= np_mean l <= 1)%Q.
Proof.
  intros Hne Hl. destruct (Qsum_range l Hl) as [H0 H1].
  assert (0 < inject_Z (Z.of_nat (length l)))%Q as Hpos.
  { change 0%Q with (inject_Z 0). rewrite <- Zlt_Qlt.
    destruct l; [done|]. cbn [length]. lia. }
  unfold np_mean. split.
  - apply Qle_shift_div_l; [done|]. by rewrite Qmult_0_l.
  - apply Qle_shift_div_r; [done|]. by rewrite Qmult_1_l.
Qed.

Lemma Qsum_unit_weights {A} (s : A -> Q) (w : A -> Q) (l : list A) :
  (forall a, w a = 1%Q) ->
  (Qsum ((fun a => w a * s a) <$> l) == Qsum (s <$> l))%Q
  /\ (Qsum (w <$> l) == inject_Z (Z.of_nat (length l)))%Q.
Proof.
  intros Hw. induction l as [|a l [IH1 IH2]].
  - split; reflexivity.
  - cbn [fmap list_fmap Qsum foldr length]. fold (Qsum (s <$> l)).
    fold (Qsum ((fun a => (w a * s a)%Q) <$> l)). fold (Qsum (w <$> l)).
    rewrite Hw. split.
    + rewrite IH1. ring.
    + rewrite IH2, Nat2Z.inj_succ, <- Z.add_1_l, inject_Z_plus. reflexivity.
Qed.

Lemma record_similarity_sym record1 record2 (fields : list string) :
  (forall a b, fuzz_ratio a b = fuzz_ratio b a) ->
  score record1 record2 fields = score record2 record1 fields.
Proof.
  intros Hsym. unfold _calculate_record_similarity.
  replace (omap (field_similarity fuzz_ratio record2 record1) fields)
    with (omap (field_similarity fuzz_ratio record1 record2) fields); [done|].
  induction fields as [|f fields IH]; [done|].
  cbn [omap list_omap].
  by rewrite IH, (field_similarity_sym record1 record2 f Hsym).
Qed.

(** C9 (amended). Score symmetry: whenever the string metric is symmetric,
    the score of two records over a field list does not depend on the
    order of the two records. *)
Theorem score_symmetric record1 record2 (fields : list string) :
  (forall a b, fuzz_ratio a b = fuzz_ratio b a) ->
  _calculate_record_similarity fuzz_ratio record1 record2 fields
  = _calculate_record_similarity fuzz_ratio record2 record1 fields.
Proof. apply record_similarity_sym. Qed.

(** C4 (amended). Scorer contract: the score is the equal-weight mean of the
    similarities of the contributing fields (the weighted mean of the
    specification with no weight supplied), it is exactly 0 when no field
    contributes, and it lies in [0,1] when the metric lies in [0,100]. *)
Theorem scorer_contract record1 record2 (fields : list string) :
  (forall a b, 0 <= fuzz_ratio a b <= 100)%Z ->
  (_calculate_record_similarity fuzz_ratio record1 record2 fields
   == spec_weighted_score fuzz_ratio ∅ record1 record2 fields)%Q
  /\ (filter (fun f => contributes record1 record2 f = true) fields = []
      -> _calculate_record_similarity fuzz_ratio record1 record2 fields = 0%Q)
  /\ (0 <= _calculate_record_similarity fuzz_ratio record1 record2 fields
       <= 1)%Q.
Proof.
  intros Hr.
  assert (forall x, x ∈ omap (field_similarity fuzz_ratio record1 record2) fields
                    -> (0 <= x <= 1)%Q) as Hall.
  { intros x Hx. apply list_elem_of_omap in Hx as (fld & _ & Hx).
    by eapply field_similarity_range. }
  unfold _calculate_record_similarity, spec_weighted_score.
  rewrite similarities_contributing in *.
  destruct (filter _ fields) as [|f contributing] eqn:Hc.
  - cbn. repeat split; try reflexivity; done.
  - split; [|split; [done|]].
    + change (spec_field_similarity fuzz_ratio record1 record2 <$> f :: contributing)
        with (spec_field_similarity fuzz_ratio record1 record2 f
                :: (spec_field_similarity fuzz_ratio record1 record2 <$> contributing)).
      change (?x :: (?g <$> contributing)) with (g <$> (f :: contributing)).
      unfold np_mean.
      destruct (Qsum_unit_weights
                  (spec_field_similarity fuzz_ratio record1 record2)
                  (spec_weight ∅) (f :: contributing)) as [E1 E2].
      { intros a. unfold spec_weight. by rewrite lookup_empty. }
      rewrite E1, E2, length_fmap. reflexivity.
    + by apply np_mean_range.
Qed.

End ScorerProperties.

(** ** Frames: positions and rows *)

Lemma positions_lookup (df : DataFrame) (p : nat) :
  positions df !! p = (fun lr => (p, lr.2)) <$> df !! p.
Proof. unfold positions. by rewrite list_lookup_imap. Qed.

Lemma elem_of_positions_drop (df : DataFrame) (k j : nat) (rj : Series) :
  (j, rj) ∈ drop k (positions df) <->
  k <= j /\ iloc df j = Some rj.
Proof.
  rewrite list_elem_of_lookup. split.
  - intros [n Hn]. rewrite lookup_drop, positions_lookup in Hn.
    destruct (df !! (k + n)) as [[lbl r]|] eqn:E; [|done].
    cbn in Hn. injection Hn as <- <-. split; [lia|].
    unfold iloc. by rewrite E.
  - intros [Hk Hj]. exists (j - k).
    rewrite lookup_drop, positions_lookup.
    replace (k + (j - k)) with j by lia.
    unfold iloc in Hj. destruct (df !! j) as [[lbl r]|]; [|done].
    cbn in *. by injection Hj as ->.
Qed.

Lemma elem_of_positions (df : DataFrame) (j : nat) (rj : Series) :
  (j, rj) ∈ positions df <-> iloc df j = Some rj.
Proof.
  rewrite <- (drop_0 (positions df)), elem_of_positions_drop.
  split; [by intros [_ ?]|split; [lia|done]].
Qed.

Lemma iloc_lt (df : DataFrame) (j : nat) (rj : Series) :
  iloc df j = Some rj -> j < length df.
Proof.
  unfold iloc. intros H. apply lookup_lt_is_Some.
  destruct (df !! j); [eauto|done].
Qed.

Lemma fst_pd_DataFrame (data : list Series) :
  fst <$> pd_DataFrame data = seq 0 (length (pd_DataFrame data)).
Proof.
  unfold pd_DataFrame. rewrite fmap_imap, length_imap.
  apply list_eq. intros p. rewrite list_lookup_imap.
  destruct (data !! p) as [r|] eqn:E; cbn.
  - symmetry. apply lookup_seq. split; [done|]. by eapply lookup_lt_Some.
  - symmetry. apply lookup_seq_ge. by apply lookup_ge_None.
Qed.

(** ** Matcher *)

Section MatcherProperties.

Variable fuzz_ratio : string -> string -> Z.

Local Abbreviation matches_of := (_find_entity_matches fuzz_ratio).

Lemma Qle_bool_trans (t1 t2 s : Q) :
  (t1 <= t2)%Q -> Qle_bool t2 s = true -> Qle_bool t1 s = true.
Proof.
  intros H12. rewrite !Qle_bool_iff. intros H2. by eapply Qle_trans.
Qed.

Lemma match_inner_mono fields (t1 t2 : Q) i ri rest :
  (t1 <= t2)%Q ->
  forall acc1 acc2 : list Match,
    acc2 `sublist_of` acc1 ->
    match_inner fuzz_ratio fields t2 i ri acc2 rest
    `sublist_of` match_inner fuzz_ratio fields t1 i ri acc1 rest.
Proof.
  intros H12. unfold match_inner.
  induction rest as [|[j rj] rest IH]; intros acc1 acc2 Hsub; [done|].
  cbn [foldl]. apply IH.
  destruct (Qle_bool t2 _) eqn:E2.
  - rewrite (Qle_bool_trans t1 t2 _ H12 E2).
    apply sublist_app; [done|reflexivity].
  - destruct (Qle_bool t1 _); [|done].
    by apply sublist_inserts_r.
Qed.

Lemma match_outer_mono fields (t1 t2 : Q) (P l : list (nat * Series)) :
  (t1 <= t2)%Q ->
  forall acc1 acc2 : list Match,
    acc2 `sublist_of` acc1 ->
    foldl (fun matches '(i, ri) =>
             match_inner fuzz_ratio fields t2 i ri matches (drop (S i) P))
          acc2 l
    `sublist_of`
    foldl (fun matches '(i, ri) =>
             match_inner fuzz_ratio fields t1 i ri matches (drop (S i) P))
          acc1 l.
Proof.
  intros H12.
  induction l as [|[i ri] l IH]; intros acc1 acc2 Hsub; [done|].
  cbn [foldl]. apply IH. by apply match_inner_mono.
Qed.

Lemma find_entity_matches_mono df config (t1 t2 : Q) :
  (t1 <= t2)%Q ->
  matches_of df config t2 `sublist_of` matches_of df config t1.
Proof.
  intros H12. unfold _find_entity_matches.
  destruct (default [] (cfg_matching_fields config)) as [|f fields]; [done|].
  by apply match_outer_mono.
Qed.

(** C8. Threshold monotonicity: for a fixed frame and configuration and
    thresholds t1 <= t2, every match candidate returned at t2 is returned
    at t1, in the same relative order, so that raising the threshold never
    increases the number of matches. *)
Theorem threshold_monotonicity df config (t1 t2 : Q) :
  (t1 <= t2)%Q ->
  (forall m, m ∈ _find_entity_matches fuzz_ratio df config t2
             -> m ∈ _find_entity_matches fuzz_ratio df config t1)
  /\ _find_entity_matches fuzz_ratio df config t2
     `sublist_of` _find_entity_matches fuzz_ratio df config t1
  /\ length (_find_entity_matches fuzz_ratio df config t2)
     <= length (_find_entity_matches fuzz_ratio df config t1).
Proof.
  intros H12. pose proof (find_entity_matches_mono df config t1 t2 H12) as Hs.
  split; [|split; [done|by apply sublist_length]].
  intros m Hm. eapply elem_of_submseteq; [done|by apply sublist_submseteq].
Qed.

(** C10. An empty (or absent) [matching_fields] list is silently a
    no-match: [find_matches] returns the empty list, for every record list
    and threshold; the model has no failure path for it to take. *)
Theorem find_matches_no_fields data config (threshold : Q) :
  default [] (cfg_matching_fields config) = [] ->
  find_matches fuzz_ratio data config threshold = [].
Proof.
  intros Hf. unfold find_matches, _find_entity_matches. by rewrite Hf.
Qed.

Lemma match_inner_ok df fields threshold i ri rest :
  iloc df i = Some ri ->
  (forall j rj, (j, rj) ∈ rest -> i < j /\ iloc df j = Some rj) ->
  forall acc,
    Forall (match_ok fuzz_ratio df fields threshold) acc ->
    Forall (match_ok fuzz_ratio df fields threshold)
           (match_inner fuzz_ratio fields threshold i ri acc rest).
Proof.
  intros Hi. unfold match_inner.
  induction rest as [|[j rj] rest IH]; intros Hrest acc Hacc; [done|].
  cbn [foldl]. apply IH; [intros ???; apply Hrest; by right|].
  destruct (Qle_bool threshold _) eqn:E; [|done].
  apply Forall_app; split; [done|]. apply Forall_singleton.
  destruct (Hrest j rj) as [Hlt Hj]; [by left|].
  split; [done|]. exists ri, rj. by cbn.
Qed.

Lemma match_outer_ok df fields threshold (l : list (nat * Series)) :
  (forall i ri, (i, ri) ∈ l -> iloc df i = Some ri) ->
  forall acc,
    Forall (match_ok fuzz_ratio df fields threshold) acc ->
    Forall (match_ok fuzz_ratio df fields threshold)
      (foldl (fun matches '(i, ri) =>
                match_inner fuzz_ratio fields threshold i ri matches
                  (drop (S i) (positions df)))
             acc l).
Proof.
  induction l as [|[i ri] l IH]; intros Hl acc Hacc; [done|].
  cbn [foldl]. apply IH; [intros ???; apply Hl; by right|].
  apply match_inner_ok; [apply Hl; by left| |done].
  intros j rj Hj. apply elem_of_positions_drop in Hj as [? ?].
  split; [lia|done].
Qed.

Lemma find_entity_matches_ok df config threshold :
  Forall (match_ok fuzz_ratio df (default [] (cfg_matching_fields config)) threshold)
         (matches_of df config threshold).
Proof.
  unfold _find_entity_matches.
  destruct (default [] (cfg_matching_fields config)) as [|f fields]; [done|].
  apply match_outer_ok; [|done].
  intros i ri. by rewrite elem_of_positions.
Qed.

End MatcherProperties.

(** ** MergeEngine *)

Lemma merge_concatenate_lookup (record1 record2 : Series) (key : string) :
  (key ∈ dom record1 ∪ dom record2 ->
     _merge_concatenate record1 record2 !! key
     = Some (concatenate_value record1 record2 key))
  /\ (key ∉ dom record1 ∪ dom record2 ->
        _merge_concatenate record1 record2 !! key = None).
Proof.
  unfold _merge_concatenate.
  apply (set_fold_ind_L
           (fun (merged : Series) (keys : gset string) =>
              (key ∈ keys ->
                 merged !! key = Some (concatenate_value record1 record2 key))
              /\ (key ∉ keys -> merged !! key = None))).
  - split; [set_solver|]. intros _. apply lookup_empty.
  - intros k keys merged Hk [IH1 IH2].
    destruct (decide (k = key)) as [->|Hne].
    + rewrite lookup_insert_eq. split; [done|set_solver].
    + rewrite lookup_insert_ne by done. split.
      * intros [Hkey%elem_of_singleton|Hkey]%elem_of_union; [done|auto].
      * intros [_ Hkey]%not_elem_of_union. auto.
Qed.

(** C6 (amended). Concatenate strategy: for every field of either record,
    with an absent field read as the empty string, the merged value is the
    two values joined by " | " whenever both are truthy, whether they differ
    or not; it is the first value when only that one is truthy, and the
    second value otherwise. The merged record has no other field. *)
Theorem concatenate_contract (record1 record2 : Series) (key : string) :
  let val1 := series_get record1 key (VStr "") in
  let val2 := series_get record2 key (VStr "") in
  let merged := _merge_concatenate record1 record2 in
  (key ∈ dom record1 ∪ dom record2 ->
     (truthy val1 = true -> truthy val2 = true ->
        merged !! key = Some (VStr (py_str val1 ++ " | " ++ py_str val2)))
     /\ (truthy val1 = true -> truthy val2 = false ->
           merged !! key = Some val1)
     /\ (truthy val1 = false -> merged !! key = Some val2))
  /\ (key ∉ dom record1 ∪ dom record2 -> merged !! key = None).
Proof.
  cbv zeta.
  destruct (merge_concatenate_lookup record1 record2 key) as [Hin Hout].
  split; [|done].
  intros Hk. rewrite (Hin Hk). unfold concatenate_value.
  repeat split.
  - by intros -> ->.
  - by intros -> ->.
  - by intros ->.
Qed.

Lemma apply_strategy_unknown merge_strategy (record1 record2 : Series) :
  merge_strategy ∉ ["latest_wins"; "first_wins"; "concatenate"] ->
  apply_strategy merge_strategy record1 record2 = record1.
Proof.
  intros Hs. unfold apply_strategy.
  rewrite !bool_decide_eq_false_2; [done|..]; intros ->; apply Hs; set_solver.
Qed.

Lemma iloc_or_raise_lt (df : DataFrame) (i : nat) :
  i < length df -> exists r, iloc df i = Some r /\ iloc_or_raise df i = inr r.
Proof.
  intros Hi. apply lookup_lt_is_Some in Hi as [[lbl r] Hr].
  exists r. unfold iloc_or_raise, iloc. by rewrite Hr.
Qed.

Lemma merge_step_total df merge_strategy st m :
  match_in_range df m ->
  exists st', merge_step df merge_strategy st m = inr st'.
Proof.
  intros [H1 H2]. destruct st as [merged_records processed_indices].
  unfold merge_step.
  destruct (bool_decide _ || bool_decide _); [by eexists|].
  destruct (iloc_or_raise_lt df _ H1) as (r1 & _ & ->).
  destruct (iloc_or_raise_lt df _ H2) as (r2 & _ & ->).
  by eexists.
Qed.

Lemma merge_loop_total df merge_strategy matches :
  Forall (match_in_range df) matches ->
  forall st, exists st',
    foldM (merge_step df merge_strategy) st matches = inr st'.
Proof.
  induction 1 as [|m matches Hm _ IH]; intros st; [by eexists|].
  cbn [foldM].
  destruct (merge_step_total df merge_strategy st m Hm) as [st1 ->].
  apply IH.
Qed.

Lemma merge_matched_entities_total df matches merge_strategy :
  Forall (match_in_range df) matches ->
  exists st,
    foldM (merge_step df merge_strategy) ([], ∅) matches = inr st
    /\ _merge_matched_entities df matches merge_strategy
       = inr (st.1 ++ unmatched_rows df st.2).
Proof.
  intros Hm.
  destruct (merge_loop_total df merge_strategy matches Hm ([], ∅))
    as [[merged processed] Hst].
  exists (merged, processed). split; [done|].
  unfold _merge_matched_entities. by rewrite Hst.
Qed.

(** C3 (amended). Merge-strategy validation: a strategy that is not one of
    latest_wins, first_wins, concatenate is not rejected. Each accepted pair
    is merged into the fields of its first record, unchanged, with the
    provenance and the score added, and a merge over candidates whose
    indices lie in the frame returns its output list. *)
Theorem unknown_strategy_defaults_to_first_record merge_strategy :
  merge_strategy ∉ ["latest_wins"; "first_wins"; "concatenate"] ->
  (forall df acc processed m record1 record2,
      entity_1_index m ∉ processed -> entity_2_index m ∉ processed ->
      iloc df (entity_1_index m) = Some record1 ->
      iloc df (entity_2_index m) = Some record2 ->
      merge_step df merge_strategy (acc, processed) m =
      inr (acc ++ [ <["_similarity_score" := OFloat (similarity_score m)]>
                      (<["_merged_from" :=
                           OList [dict_get record1 "id"; dict_get record2 "id"]]>
                         (to_dict record1)) ],
           {[entity_1_index m; entity_2_index m]} ∪ processed))
  /\ (forall df matches,
        Forall (match_in_range df) matches ->
        exists out, _merge_matched_entities df matches merge_strategy = inr out).
Proof.
  intros Hs. split.
  - intros df acc processed m record1 record2 Hp1 Hp2 H1 H2.
    unfold merge_step, iloc_or_raise.
    rewrite !bool_decide_eq_false_2 by done. cbn [orb].
    rewrite H1, H2. cbn. by rewrite apply_strategy_unknown.
  - intros df matches Hm.
    destruct (merge_matched_entities_total df matches merge_strategy Hm)
      as (st & _ & ->).
    by eexists.
Qed.

(** ** ConfidenceAggregator *)

(** C7 (amended). Empty confidence summary: for the empty match list the
    aggregation returns the empty dictionary, with no count and no
    statistic in it, and raises nothing; a non-empty match list yields
    exactly the seven statistics, so no summary carries a count. *)
Theorem empty_confidence_summary (np_std : list Q -> Q) :
  _calculate_confidence_scores np_std [] = ∅
  /\ (forall key, _calculate_confidence_scores np_std [] !! key = None)
  /\ (forall m matches,
        dom (_calculate_confidence_scores np_std (m :: matches))
        = summary_keys).
Proof.
  split; [done|]. split; [intros key; apply lookup_empty|].
  intros m matches. unfold _calculate_confidence_scores, summary_keys.
  rewrite !dom_insert_L, dom_empty_L. set_solver.
Qed.

(** ** Reconciliation jobs *)

Section ReconcileProperties.

Variable fuzz_ratio : string -> string -> Z.
Variable np_std : list Q -> Q.

Lemma match_ok_in_range df fields threshold m :
  match_ok fuzz_ratio df fields threshold m -> match_in_range df m.
Proof.
  intros (_ & ri & rj & Hi & Hj & _). split; by eapply iloc_lt.
Qed.

Lemma length_pd_DataFrame data : length (pd_DataFrame data) = length data.
Proof. unfold pd_DataFrame. apply length_imap. Qed.

Lemma reconcile_entities_completes env self data matching_config
      entity_type threshold deduplication merge_strategy :
  exists res job,
    reconcile_entities fuzz_ratio np_std env self data matching_config
      entity_type threshold deduplication merge_strategy
    = ({| reconciliation_history := reconciliation_history self ++ [job] |},
       inr res)
    /\ job_status job = "completed"
    /\ job_original_records job = length data
    /\ original_records res = length data
    /\ job_matched_pairs job = matched_pairs res.
Proof.
  unfold reconcile_entities.
  set (df := if deduplication then _ else _).
  set (matches := _find_entity_matches fuzz_ratio df matching_config threshold).
  destruct (merge_matched_entities_total df matches merge_strategy)
    as (st & _ & ->).
  { eapply Forall_impl; [apply find_entity_matches_ok|].
    intros m. apply match_ok_in_range. }
  do 2 eexists. split; [reflexivity|].
  cbn. by rewrite length_pd_DataFrame.
Qed.

(** C2 (amended). Batch-size ceiling: the engine enforces none. Every
    reconciliation request, whatever the number of its records and so also
    above [max_batch_size], runs to completion: it returns its result and
    appends one job with status completed to the history. *)
Theorem reconcile_ignores_batch_ceiling env self data matching_config
        entity_type threshold deduplication merge_strategy :
  exists res job,
    reconcile_entities fuzz_ratio np_std env self data matching_config
      entity_type threshold deduplication merge_strategy
    = ({| reconciliation_history := reconciliation_history self ++ [job] |},
       inr res)
    /\ job_status job = "completed"
    /\ job_original_records job = length data
    /\ original_records res = length data
    /\ job_matched_pairs job = matched_pairs res.
Proof. apply reconcile_entities_completes. Qed.

End ReconcileProperties.

(** ** Deduplicator *)

Lemma filter_lookup_ordered {A} (P : A -> Prop) `{!forall x, Decision (P x)}
      (l : list A) :
  forall i j x y,
    i < j ->
    filter P l !! i = Some x ->
    filter P l !! j = Some y ->
    exists p q, p < q /\ l !! p = Some x /\ l !! q = Some y /\ P x /\ P y.
Proof.
  induction l as [|a l IH]; intros i j x y Hij Hi Hj; [done|].
  rewrite filter_cons in Hi, Hj. destruct (decide (P a)) as [Ha|Ha].
  - destruct i as [|i], j as [|j]; try lia.
    + cbn in Hi. injection Hi as ->.
      cbn in Hj. apply list_elem_of_lookup_2 in Hj.
      apply list_elem_of_filter in Hj as [Hy Hin].
      apply list_elem_of_lookup_1 in Hin as [q Hq].
      exists 0, (S q). repeat split; [lia|done..].
    + cbn in Hi, Hj.
      destruct (IH i j x y) as (p & q & ? & ? & ? & ? & ?); [lia|done..|].
      exists (S p), (S q). repeat split; [lia|done..].
  - destruct (IH i j x y) as (p & q & ? & ? & ? & ? & ?); [done..|].
    exists (S p), (S q). repeat split; [lia|done..].
Qed.

Lemma drop_duplicates_from_sublist seen (df : DataFrame) :
  drop_duplicates_from seen df `sublist_of` df.
Proof.
  revert seen. induction df as [|[lbl r] df IH]; intros seen; [done|].
  cbn [drop_duplicates_from]. case_bool_decide.
  - by apply sublist_cons.
  - by apply sublist_skip.
Qed.

Lemma drop_duplicates_sublist (df : DataFrame) :
  drop_duplicates df `sublist_of` df.
Proof.
  unfold drop_duplicates. destruct (df_empty df); [done|].
  apply drop_duplicates_from_sublist.
Qed.

Section DedupProperties.

Variable fuzz_ratio : string -> string -> Z.

Local Abbreviation score := (_calculate_record_similarity fuzz_ratio).

Lemma dedup_inner_spec fields (t : Q) (ri : Series)
      (rest : list (nat * Series)) :
  forall to_remove : gset nat,
    to_remove ⊆ dedup_inner fuzz_ratio fields t ri to_remove rest
    /\ forall j rj,
         (j, rj) ∈ rest ->
         j ∉ dedup_inner fuzz_ratio fields t ri to_remove rest ->
         Qle_bool t (score ri rj fields) = false.
Proof.
  unfold dedup_inner.
  induction rest as [|[j rj] rest IH]; intros to_remove.
  - split; [done|]. intros j rj Hin. by apply elem_of_nil in Hin.
  - cbn [foldl].
    match goal with
    | |- context [foldl ?f ?T1 rest] =>
        destruct (IH T1) as [Hsub Hrest];
        assert (to_remove ⊆ T1
                /\ (j ∉ T1 -> Qle_bool t (score ri rj fields) = false))
          as [Hsub1 Hhead]
    end.
    { case_bool_decide as Hj; [split; [done|]; intros Hn; by destruct Hn|].
      destruct (Qle_bool t _); [|done].
      split; [apply union_subseteq_r|].
      intros Hn. destruct Hn. by apply elem_of_union_l, elem_of_singleton. }
    split; [by etrans|].
    intros j' rj' [[= -> ->]|Hin]%elem_of_cons Hn.
    + apply Hhead. intros ?. apply Hn. by apply Hsub.
    + by eapply Hrest.
Qed.

Lemma dedup_outer_spec fields (t : Q) (P l : list (nat * Series)) :
  forall to_remove : gset nat,
    let step := fun (to_remove : gset nat) '(i, ri) =>
                  if bool_decide (i ∈ to_remove) then to_remove
                  else dedup_inner fuzz_ratio fields t ri to_remove
                         (drop (S i) P) in
    to_remove ⊆ foldl step to_remove l
    /\ forall i ri j rj,
         (i, ri) ∈ l -> (j, rj) ∈ drop (S i) P ->
         i ∉ foldl step to_remove l -> j ∉ foldl step to_remove l ->
         Qle_bool t (score ri rj fields) = false.
Proof.
  intros to_remove step. revert to_remove.
  induction l as [|[i ri] l IH]; intros to_remove.
  - split; [done|]. intros i ri j rj Hin. by apply elem_of_nil in Hin.
  - cbn [foldl]. destruct (IH (step to_remove (i, ri))) as [Hsub Hrest].
    assert (to_remove ⊆ step to_remove (i, ri)
            /\ forall j rj, (j, rj) ∈ drop (S i) P ->
                 i ∉ step to_remove (i, ri) -> j ∉ step to_remove (i, ri) ->
                 Qle_bool t (score ri rj fields) = false) as [Hsub1 Hhead].
    { unfold step. case_bool_decide as Hi.
      - split; [done|]. intros j rj _ Hn. by destruct Hn.
      - destruct (dedup_inner_spec fields t ri (drop (S i) P) to_remove)
          as [H1 H2].
        split; [done|]. intros j rj Hj _ Hn. by eapply H2. }
    split; [by etrans|].
    intros i' ri' j rj [[= -> ->]|Hin]%elem_of_cons Hj Hni Hnj.
    + apply (Hhead j rj Hj); intros ?; [apply Hni|apply Hnj]; by apply Hsub.
    + by eapply Hrest.
Qed.

Lemma dedup_outer_survivors fields (t : Q) (df : DataFrame) i j ri rj :
  i < j -> iloc df i = Some ri -> iloc df j = Some rj ->
  i ∉ dedup_outer fuzz_ratio fields t df ->
  j ∉ dedup_outer fuzz_ratio fields t df ->
  Qle_bool t (score ri rj fields) = false.
Proof.
  intros Hij Hi Hj Hni Hnj.
  destruct (dedup_outer_spec fields t (positions df) (positions df) ∅)
    as [_ H].
  apply (H i ri j rj); try done.
  - by apply elem_of_positions.
  - apply elem_of_positions_drop. split; [lia|done].
Qed.

Lemma df_drop_survivor (df : DataFrame) (ps : gset nat) p lr :
  df !! p = Some lr -> lr.1 ∉ index_at df ps -> p ∉ ps.
Proof.
  intros Hp Hl Hin. apply Hl. unfold index_at.
  apply elem_of_list_to_set, list_elem_of_omap.
  exists p. split; [by apply elem_of_elements|]. by rewrite Hp.
Qed.

Lemma dedup_inner_added fields (t : Q) (ri : Series)
      (rest : list (nat * Series)) :
  forall (to_remove : gset nat) j,
    j ∈ dedup_inner fuzz_ratio fields t ri to_remove rest ->
    j ∈ to_remove
    \/ exists rj, (j, rj) ∈ rest /\ Qle_bool t (score ri rj fields) = true.
Proof.
  unfold dedup_inner.
  induction rest as [|[j' rj'] rest IH]; intros to_remove j Hj; [by left|].
  cbn [foldl] in Hj. apply IH in Hj as [Hj|(rj & Hin & Hs)].
  - case_bool_decide; [by left|].
    destruct (Qle_bool t _) eqn:E; [|by left].
    apply elem_of_union in Hj as [->%elem_of_singleton|Hj]; [|by left].
    right. exists rj'. split; [by left|done].
  - right. exists rj. split; [by right|done].
Qed.

Lemma dedup_outer_justified fields (t : Q) (df : DataFrame)
      (l : list (nat * Series)) :
  forall (done : list (nat * Series)) (to_remove : gset nat),
    positions df = done ++ l ->
    removal_justified fuzz_ratio df fields t (length done) to_remove ->
    removal_justified fuzz_ratio df fields t (length df)
      (foldl (fun to_remove '(i, ri) =>
                if bool_decide (i ∈ to_remove) then to_remove
                else dedup_inner fuzz_ratio fields t ri to_remove
                       (drop (S i) (positions df)))
             to_remove l).
Proof.
  induction l as [|[i ri] l IH]; intros done to_remove Hpos Hinv.
  - cbn [foldl]. rewrite app_nil_r in Hpos.
    assert (length done = length df) as <-; [|done].
    rewrite <- Hpos. unfold positions. by rewrite length_imap.
  - cbn [foldl].
    assert (positions df !! length done = Some (i, ri)) as Hi.
    { rewrite Hpos. by rewrite list_lookup_middle. }
    rewrite positions_lookup in Hi.
    destruct (df !! length done) as [[lbl r]|] eqn:E; [|done].
    cbn in Hi. injection Hi as <- <-.
    apply (IH (done ++ [(length done, r)])).
    { by rewrite <- app_assoc. }
    rewrite length_app. cbn [length].
    case_bool_decide as Hin.
    + intros j Hj. destruct (Hinv j Hj) as (i & ri & rj & ? & ? & ? & ?).
      exists i, ri, rj. repeat split; [lia|lia|tauto..].
    + intros j Hj. apply dedup_inner_added in Hj as [Hj|(rj & Hrest & Hs)].
      * destruct (Hinv j Hj) as (i & ri & rj & ? & ? & Hni & ?).
        exists i, ri, rj. repeat split; [lia|lia| |tauto..].
        intros [?|(rj' & Hrest & _)]%dedup_inner_added; [done|].
        apply elem_of_positions_drop in Hrest as [? _]. lia.
      * apply elem_of_positions_drop in Hrest as [? Hjr].
        exists (length done), r, rj. repeat split; [lia|lia| | |done..].
        -- intros [?|(rj' & Hrest & _)]%dedup_inner_added; [done|].
           apply elem_of_positions_drop in Hrest as [? _]. lia.
        -- unfold iloc. by rewrite E.
Qed.

Lemma dedup_outer_removed fields (t : Q) (df : DataFrame) j :
  j ∈ dedup_outer fuzz_ratio fields t df ->
  exists i ri rj,
    i < j /\ (i ∉ dedup_outer fuzz_ratio fields t df)
    /\ iloc df i = Some ri /\ iloc df j = Some rj
    /\ Qle_bool t (score ri rj fields) = true.
Proof.
  intros Hj.
  destruct (dedup_outer_justified fields t df (positions df) [] ∅) with (j := j)
    as (i & ri & rj & ? & ? & ? & ? & ? & ?); [done| |done|].
  - intros j' Hj'. by apply not_elem_of_empty in Hj'.
  - exists i, ri, rj. tauto.
Qed.

Lemma df_drop_keeps (df : DataFrame) (ps : gset nat) p lr :
  NoDup (fst <$> df) ->
  df !! p = Some lr -> p ∉ ps -> lr ∈ df_drop df (index_at df ps).
Proof.
  intros Hnd Hp Hps. unfold df_drop. apply list_elem_of_filter.
  split; [|by eapply list_elem_of_lookup_2].
  unfold index_at. rewrite elem_of_list_to_set, list_elem_of_omap.
  intros (q & Hq & Hlbl). apply elem_of_elements in Hq.
  destruct (df !! q) as [lr'|] eqn:Eq; [|done]. cbn in Hlbl.
  injection Hlbl as Hlbl.
  assert (p = q) as ->; [|done].
  eapply NoDup_lookup; [exact Hnd| |].
  - by rewrite list_lookup_fmap, Hp.
  - rewrite list_lookup_fmap, Eq. cbn. by f_equal.
Qed.

Lemma drop_duplicates_labels_NoDup (data : list Series) :
  NoDup (fst <$> drop_duplicates (pd_DataFrame data)).
Proof.
  apply (sublist_NoDup _ (fst <$> pd_DataFrame data)).
  - rewrite fst_pd_DataFrame. apply NoDup_seq.
  - apply fmap_sublist, drop_duplicates_sublist.
Qed.

(** C5. Dedup postcondition: with a non-empty similarity-field list and
    the configured threshold t, any two records of the output, taken in
    output order, have a similarity below t (and taken in either order
    when the metric is symmetric), and the output is the list of the
    frame's rows with some rows removed, in their original order. The
    removal is pairwise, not a clustering: a row that survives the exact
    pass is removed only for its similarity of t or more to a record that
    is kept. *)
Theorem dedup_postcondition data config f fields :
  cfg_similarity_fields config = Some (f :: fields) ->
  let t := default (9 # 10)%Q (cfg_similarity_threshold config) in
  let out := deduplicate_data fuzz_ratio data config in
  (forall i j ri rj,
      i < j -> out !! i = Some ri -> out !! j = Some rj ->
      ~ (t <= _calculate_record_similarity fuzz_ratio ri rj (f :: fields))%Q)
  /\ ((forall a b, fuzz_ratio a b = fuzz_ratio b a) ->
      forall i j ri rj,
        i <> j -> out !! i = Some ri -> out !! j = Some rj ->
        ~ (t <= _calculate_record_similarity fuzz_ratio ri rj (f :: fields))%Q)
  /\ out `sublist_of` to_records (pd_DataFrame data)
  /\ (forall r,
        r ∈ to_records (drop_duplicates (pd_DataFrame data)) ->
        r ∈ out
        \/ exists kept,
             kept ∈ out
             /\ (t <= _calculate_record_similarity fuzz_ratio kept r
                        (f :: fields))%Q).
Proof.
  intros Hf t out.
  assert (forall i j ri rj,
             i < j -> out !! i = Some ri -> out !! j = Some rj ->
             ~ (t <= _calculate_record_similarity fuzz_ratio ri rj
                       (f :: fields))%Q) as Hordered.
  { unfold out, deduplicate_data, _deduplicate_dataframe.
    rewrite Hf. cbn [from_option id]. fold t.
    set (df := drop_duplicates (pd_DataFrame data)).
    intros i j ri rj Hij Hi Hj. unfold to_records, df_drop in Hi, Hj.
    rewrite list_lookup_fmap in Hi, Hj.
    destruct (filter _ df !! i) as [[li ri']|] eqn:Ei; [|done].
    destruct (filter _ df !! j) as [[lj rj']|] eqn:Ej; [|done].
    cbn in Hi, Hj. injection Hi as ->. injection Hj as ->.
    destruct (filter_lookup_ordered _ df i j _ _ Hij Ei Ej)
      as (p & q & Hpq & Hp & Hq & Hlp & Hlq).
    rewrite <- Qle_bool_iff.
    rewrite (dedup_outer_survivors (f :: fields) t df p q ri rj); [done|done|..].
    - unfold iloc. by rewrite Hp.
    - unfold iloc. by rewrite Hq.
    - by eapply df_drop_survivor.
    - by eapply df_drop_survivor. }
  split; [exact Hordered|]. split; [|split].
  - intros Hsym i j ri rj Hij Hi Hj.
    destruct (decide (i < j)) as [Hlt|Hge]; [by eapply Hordered|].
    rewrite (record_similarity_sym fuzz_ratio ri rj (f :: fields) Hsym).
    eapply (Hordered j i); [lia|done..].
  - unfold out, deduplicate_data, _deduplicate_dataframe.
    rewrite Hf. cbn [from_option id].
    unfold to_records. apply fmap_sublist.
    etrans; [apply sublist_filter|]. apply drop_duplicates_sublist.
  - unfold out, deduplicate_data, _deduplicate_dataframe.
    rewrite Hf. cbn [from_option id]. fold t.
    set (df := drop_duplicates (pd_DataFrame data)).
    set (T := dedup_outer fuzz_ratio (f :: fields) t df).
    pose proof (drop_duplicates_labels_NoDup data) as Hnd. fold df in Hnd.
    assert (forall p lr, df !! p = Some lr -> p ∉ T ->
                         lr.2 ∈ to_records (df_drop df (index_at df T)))
      as Hkept.
    { intros p lr Hp Hn. unfold to_records. apply list_elem_of_fmap.
      exists lr. split; [done|]. by eapply df_drop_keeps. }
    intros r Hr. unfold to_records in Hr.
    apply list_elem_of_fmap in Hr as ([lbl r'] & -> & Hin).
    apply list_elem_of_lookup_1 in Hin as [q Hq].
    destruct (decide (q ∈ T)) as [HqT|HqT]; [|left; by apply (Hkept q _ Hq)].
    right.
    apply dedup_outer_removed in HqT
      as (i & ri & rj & Hiq & HiT & Hi & Hj & Hs).
    unfold iloc in Hi, Hj. rewrite Hq in Hj. cbn in Hj. injection Hj as <-.
    destruct (df !! i) as [lri|] eqn:Ei; [|done].
    cbn in Hi. injection Hi as <-.
    exists lri.2. split; [by apply (Hkept i _ Ei)|].
    by apply Qle_bool_iff.
Qed.

End DedupProperties.

(** ** Conservation of the merge on a frame indexed by position

    On a frame whose labels are its positions (a frame fresh from
    [pd.DataFrame]), the merge returns one merged record per accepted pair,
    then the rows no pair has claimed, and every position of the frame is
    the source of exactly one of these outputs. *)

Lemma positions_range_index (df : DataFrame) :
  fst <$> df = seq 0 (length df) -> positions df = df.
Proof.
  intros Hlbl. apply list_eq. intros p. rewrite positions_lookup.
  destruct (df !! p) as [[lbl r]|] eqn:E; [|done].
  cbn. do 2 f_equal.
  assert ((fst <$> df) !! p = Some lbl) as Hp
      by (by rewrite list_lookup_fmap, E).
  rewrite Hlbl in Hp. apply lookup_seq in Hp as [-> _]. done.
Qed.

Lemma fst_positions (df : DataFrame) :
  fst <$> positions df = seq 0 (length df).
Proof.
  apply list_eq. intros p. rewrite list_lookup_fmap, positions_lookup.
  destruct (df !! p) as [lr|] eqn:E; cbn.
  - symmetry. apply lookup_seq. split; [done|]. by eapply lookup_lt_Some.
  - symmetry. apply lookup_seq_ge. by apply lookup_ge_None.
Qed.

Lemma fst_unclaimed (df : DataFrame) (claimed : list nat) :
  fst <$> unclaimed df claimed
  = filter (fun p => p ∉ claimed) (seq 0 (length df)).
Proof.
  unfold unclaimed. rewrite <- fst_positions.
  induction (positions df) as [|[p r] l IH]; [done|].
  rewrite fmap_cons, !filter_cons. cbn [fst].
  destruct (decide (p ∉ claimed)); [rewrite fmap_cons|]; by rewrite IH.
Qed.

Lemma merge_step_claimed df merge_strategy acc (claimed : gset nat) m :
  match_in_range df m ->
  merge_step df merge_strategy (acc, claimed) m =
  if bool_decide (entity_1_index m ∈ claimed)
     || bool_decide (entity_2_index m ∈ claimed)
  then inr (acc, claimed)
  else inr (acc ++ [merged_record_of df merge_strategy m],
            {[entity_1_index m; entity_2_index m]} ∪ claimed).
Proof.
  intros [H1 H2]. unfold merge_step, merged_record_of.
  destruct (bool_decide _ || bool_decide _); [done|].
  destruct (iloc_or_raise_lt df _ H1) as (r1 & -> & ->).
  destruct (iloc_or_raise_lt df _ H2) as (r2 & -> & ->).
  done.
Qed.

Lemma merge_loop_claimed df merge_strategy matches :
  Forall (match_in_range df) matches ->
  forall acc (claimed : gset nat),
    foldM (merge_step df merge_strategy) (acc, claimed) matches =
    inr (acc ++ (merged_record_of df merge_strategy
                   <$> claimed_pairs claimed matches),
         list_to_set (claimed_indices (claimed_pairs claimed matches))
           ∪ claimed).
Proof.
  induction 1 as [|m matches Hm _ IH]; intros acc claimed.
  - cbn. rewrite app_nil_r. f_equal. f_equal. solve_set.
  - cbn [foldM claimed_pairs]. rewrite merge_step_claimed by done.
    destruct (bool_decide _ || bool_decide _).
    + apply IH.
    + cbn [mbind result_bind]. rewrite IH. rewrite fmap_cons.
      rewrite <- app_assoc. cbn [app]. do 2 f_equal.
      unfold claimed_indices at 2. rewrite bind_cons.
      fold (claimed_indices
              (claimed_pairs
                 ({[entity_1_index m; entity_2_index m]} ∪ claimed) matches)).
      unfold pair_indices. cbn [app]. rewrite !list_to_set_cons.
      solve_set.
Qed.

Lemma claimed_indices_fresh matches :
  Forall (fun m => entity_1_index m < entity_2_index m) matches ->
  forall claimed : gset nat,
    NoDup (claimed_indices (claimed_pairs claimed matches))
    /\ forall p, p ∈ claimed_indices (claimed_pairs claimed matches) ->
                 p ∉ claimed.
Proof.
  induction 1 as [|m matches Hm _ IH]; intros claimed.
  - split; [constructor|]. intros p Hp. by apply elem_of_nil in Hp.
  - cbn [claimed_pairs].
    destruct (bool_decide (entity_1_index m ∈ claimed)) eqn:E1;
      [apply IH|].
    destruct (bool_decide (entity_2_index m ∈ claimed)) eqn:E2;
      [apply IH|].
    cbn [orb]. apply bool_decide_eq_false in E1, E2.
    destruct (IH ({[entity_1_index m; entity_2_index m]} ∪ claimed))
      as [Hnd Hfresh].
    unfold claimed_indices. rewrite bind_cons. unfold pair_indices at 1.
    cbn [app].
    fold (claimed_indices
            (claimed_pairs
               ({[entity_1_index m; entity_2_index m]} ∪ claimed) matches)).
    split.
    + apply NoDup_cons. split.
      * intros [Heq|Hin]%elem_of_cons; [lia|].
        apply Hfresh in Hin. solve_set.
      * apply NoDup_cons. split; [|done].
        intros Hin. apply Hfresh in Hin. solve_set.
    + intros p [->|[->|Hin]%elem_of_cons]%elem_of_cons; [done|done|].
      apply Hfresh in Hin. solve_set.
Qed.

Lemma claimed_indices_lt df matches (claimed : gset nat) p :
  Forall (match_in_range df) matches ->
  p ∈ claimed_indices (claimed_pairs claimed matches) -> p < length df.
Proof.
  intros Hm. revert claimed.
  induction Hm as [|m matches [H1 H2] _ IH]; intros claimed Hp.
  - by apply elem_of_nil in Hp.
  - cbn [claimed_pairs] in Hp.
    destruct (bool_decide _ || bool_decide _); [by eapply IH|].
    unfold claimed_indices in Hp. rewrite bind_cons in Hp.
    apply elem_of_app in Hp as [Hp|Hp]; [|by eapply IH].
    unfold pair_indices in Hp.
    apply elem_of_cons in Hp as [->|Hp]; [done|].
    apply elem_of_cons in Hp as [->|Hp]; [done|].
    by apply elem_of_nil in Hp.
Qed.

Lemma claimed_indices_length (pairs : list Match) :
  length (claimed_indices pairs) = 2 * length pairs.
Proof.
  induction pairs as [|m pairs IH]; [done|].
  unfold claimed_indices in *. rewrite bind_cons, length_app, IH.
  cbn. lia.
Qed.

Theorem merge_conservation_range_index df matches merge_strategy :
  fst <$> df = seq 0 (length df) ->
  Forall (fun m => entity_1_index m < entity_2_index m < length df) matches ->
  let pairs := claimed_pairs ∅ matches in
  let rest := unclaimed df (claimed_indices pairs) in
  _merge_matched_entities df matches merge_strategy
  = inr ((merged_record_of df merge_strategy <$> pairs)
         ++ ((fun pr => to_dict pr.2) <$> rest))
  /\ claimed_indices pairs ++ (fst <$> rest) ≡ₚ seq 0 (length df)
  /\ length pairs + length rest = length df - length pairs.
Proof.
  intros Hlbl Hm pairs rest.
  assert (Forall (match_in_range df) matches) as Hrange.
  { eapply Forall_impl; [exact Hm|]. cbn beta. intros m [? ?]. split; lia. }
  assert (Forall (fun m => entity_1_index m < entity_2_index m) matches)
    as Hlt.
  { eapply Forall_impl; [exact Hm|]. cbn beta. intros m [? ?]. lia. }
  destruct (claimed_indices_fresh matches Hlt ∅) as [Hnd _]. fold pairs in Hnd.
  assert (claimed_indices pairs ++ (fst <$> rest) ≡ₚ seq 0 (length df))
    as Hperm.
  { unfold rest. rewrite fst_unclaimed.
    rewrite <- (filter_app_complement
                  (fun p => p ∈ claimed_indices pairs)
                  (seq 0 (length df))) at 2.
    apply Permutation_app; [|done].
    apply NoDup_Permutation; [done|apply NoDup_filter, NoDup_seq|].
    intros p. rewrite list_elem_of_filter, elem_of_seq. split.
    - intros Hp. split; [done|]. split; [lia|].
      by eapply claimed_indices_lt.
    - by intros [? _]. }
  split; [|split; [done|]].
  - unfold _merge_matched_entities.
    rewrite (merge_loop_claimed df merge_strategy matches Hrange [] ∅).
    cbn [mbind result_bind mret result_ret app]. do 2 f_equal.
    unfold unmatched_rows, rest, unclaimed.
    rewrite (positions_range_index df Hlbl). f_equal.
    apply list_filter_iff. intros [lbl r]. cbn [fst].
    fold pairs. solve_set.
  - apply Permutation_length in Hperm.
    rewrite length_app, length_fmap, length_seq, claimed_indices_length in Hperm.
    lia.
Qed.

(** Conservation for the matcher's output over a frame fresh from
    [pd.DataFrame]: no deduplication has touched the index. *)
Corollary merge_conservation_fresh_frame
  (fuzz_ratio : string -> string -> Z) data config threshold merge_strategy :
  let df := pd_DataFrame data in
  let matches := _find_entity_matches fuzz_ratio df config threshold in
  let pairs := claimed_pairs ∅ matches in
  let rest := unclaimed df (claimed_indices pairs) in
  _merge_matched_entities df matches merge_strategy
  = inr ((merged_record_of df merge_strategy <$> pairs)
         ++ ((fun pr => to_dict pr.2) <$> rest))
  /\ claimed_indices pairs ++ (fst <$> rest) ≡ₚ seq 0 (length data)
  /\ length pairs + length rest = length data - length pairs.
Proof.
  intros df matches pairs rest.
  rewrite <- (length_pd_DataFrame data). fold df.
  apply merge_conservation_range_index; [apply fst_pd_DataFrame|].
  eapply Forall_impl; [apply find_entity_matches_ok|].
  intros m (Hlt & ri & rj & Hi & Hj & _). split; [done|]. by eapply iloc_lt.
Qed.

(** * The engine on concrete records *)

(** ** Scorer *)

Lemma score_symmetric_witness :
  (forall a b, lcs_ratio a b = lcs_ratio b a)
  /\ _calculate_record_similarity lcs_ratio john_1 john_3 ["name"; "email"]
     = _calculate_record_similarity lcs_ratio john_3 john_1 ["name"; "email"].
Proof.
  split; [exact lcs_ratio_sym|].
  apply (score_symmetric lcs_ratio john_1 john_3 ["name"; "email"]).
  exact lcs_ratio_sym.
Defined.

Lemma scorer_contract_witness :
  (forall a b, 0 <= lcs_ratio a b <= 100)%Z
  /\ (_calculate_record_similarity lcs_ratio john_1 john_3 ["name"; "phone"]
      == spec_weighted_score lcs_ratio ∅ john_1 john_3 ["name"; "phone"])%Q
  /\ (filter (fun f => contributes john_1 john_3 f = true) ["name"; "phone"] = []
      -> _calculate_record_similarity lcs_ratio john_1 john_3 ["name"; "phone"]
         = 0%Q)
  /\ (0 <= _calculate_record_similarity lcs_ratio john_1 john_3
             ["name"; "phone"] <= 1)%Q.
Proof.
  split; [exact lcs_ratio_range|].
  apply (scorer_contract lcs_ratio john_1 john_3 ["name"; "phone"]).
  exact lcs_ratio_range.
Defined.

(** C9, as stated, fails: on the pure-Python backend [fuzz.ratio] is not
    symmetric, 25 for ("tide", "diet") and 50 for ("diet", "tide"), and
    the scores of the two records in the two orders are 0.25 and 0.5. *)
Lemma score_is_not_symmetric :
  difflib_ratio "tide" "diet" = 25%Z
  /\ difflib_ratio "diet" "tide" = 50%Z
  /\ _calculate_record_similarity difflib_ratio
       (person 1 "tide") (person 2 "diet") ["name"] = (25 # 100)%Q
  /\ _calculate_record_similarity difflib_ratio
       (person 2 "diet") (person 1 "tide") ["name"] = (50 # 100)%Q
  /\ ~ (_calculate_record_similarity difflib_ratio
          (person 1 "tide") (person 2 "diet") ["name"]
        == _calculate_record_similarity difflib_ratio
             (person 2 "diet") (person 1 "tide") ["name"])%Q.
Proof.
  repeat split; by vm_compute.
Qed.

(** The symmetry of the score is the symmetry of the metric: under a
    metric that is not symmetric the score depends on the order. *)
Example score_follows_the_metric :
  _calculate_record_similarity prefix_ratio (person 1 "jo") (person 2 "john")
    ["name"] = (100 # 100)%Q
  /\ _calculate_record_similarity prefix_ratio (person 2 "john") (person 1 "jo")
       ["name"] = (0 # 100)%Q.
Proof. split; by vm_compute. Qed.

(** C4, as stated, fails: with the weights of the settings supplied
    (name 0.4, email 0.3), the weighted mean of the specification is
    0.4 * 1 + 0.3 * 0.53 over 0.7, while the engine, which reads no
    weight, returns the plain mean (1 + 0.53) / 2. *)
Lemma scorer_ignores_weights :
  _calculate_record_similarity lcs_ratio john_1 john_3 ["name"; "email"]
  = (15300 # 20000)%Q
  /\ spec_weighted_score lcs_ratio (similarity_fields_weight settings)
       john_1 john_3 ["name"; "email"]
     = (55900000 # 70000000)%Q
  /\ ~ (_calculate_record_similarity lcs_ratio john_1 john_3 ["name"; "email"]
        == spec_weighted_score lcs_ratio (similarity_fields_weight settings)
             john_1 john_3 ["name"; "email"])%Q.
Proof.
  split; [by vm_compute|]. split; [by vm_compute|].
  intros H. vm_compute in H. discriminate H.
Qed.

(** A key that a record lacks is filled with [nan] by the frame, and the
    scorer compares it as the string "nan": the record without a name
    matches the record whose name is "NaN". *)
Example missing_field_scored_as_nan :
  let data := [ <["name" := VStr "NaN"]> ∅; <["id" := VInt 7]> ∅ ] in
  to_records (pd_DataFrame data)
  = [ <["name" := VStr "NaN"]> (<["id" := VNaN]> ∅);
      <["name" := VNaN]> (<["id" := VInt 7]> ∅) ]
  /\ length (find_matches lcs_ratio data (match_on ["name"]) (8 # 10)) = 1.
Proof. split; by vm_compute. Qed.

(** ** Matcher *)

Lemma threshold_monotonicity_witness :
  let df := pd_DataFrame [john_1; john_2; john_3] in
  let config := match_on ["name"; "email"] in
  ((5 # 10) <= (9 # 10))%Q
  /\ (forall m, m ∈ _find_entity_matches lcs_ratio df config (9 # 10)
             -> m ∈ _find_entity_matches lcs_ratio df config (5 # 10))
  /\ _find_entity_matches lcs_ratio df config (9 # 10)
     `sublist_of` _find_entity_matches lcs_ratio df config (5 # 10)
  /\ length (_find_entity_matches lcs_ratio df config (9 # 10))
     <= length (_find_entity_matches lcs_ratio df config (5 # 10)).
Proof.
  intros df config.
  assert ((5 # 10) <= (9 # 10))%Q as Hle by (by vm_compute).
  split; [exact Hle|].
  exact (threshold_monotonicity lcs_ratio df config (5 # 10) (9 # 10) Hle).
Defined.

Lemma find_matches_no_fields_witness :
  default [] (cfg_matching_fields (match_on [])) = []
  /\ find_matches lcs_ratio [john_1; john_2] (match_on []) (8 # 10) = [].
Proof.
  split; [reflexivity|].
  apply (find_matches_no_fields lcs_ratio [john_1; john_2] (match_on [])).
  reflexivity.
Defined.

(** ** Deduplicator *)

Lemma dedup_postcondition_witness :
  let data := [john_1; john_2; ann; john_3] in
  let config := dedup_on ["name"] (9 # 10) in
  let out := deduplicate_data lcs_ratio data config in
  cfg_similarity_fields config = Some ["name"]
  /\ (forall i j ri rj,
        i < j -> out !! i = Some ri -> out !! j = Some rj ->
        ~ ((9 # 10) <= _calculate_record_similarity lcs_ratio ri rj ["name"])%Q)
  /\ ((forall a b, lcs_ratio a b = lcs_ratio b a) ->
      forall i j ri rj,
        i <> j -> out !! i = Some ri -> out !! j = Some rj ->
        ~ ((9 # 10) <= _calculate_record_similarity lcs_ratio ri rj ["name"])%Q)
  /\ out `sublist_of` to_records (pd_DataFrame data)
  /\ (forall r,
        r ∈ to_records (drop_duplicates (pd_DataFrame data)) ->
        r ∈ out
        \/ exists kept,
             kept ∈ out
             /\ ((9 # 10) <= _calculate_record_similarity lcs_ratio kept r
                               ["name"])%Q).
Proof.
  intros data config out. split; [reflexivity|].
  apply (dedup_postcondition lcs_ratio data config "name" []).
  reflexivity.
Defined.

(** Pairwise removal is not a clustering: "aaab" is removed for its
    similarity to "aaaa"; "aabb" is similar to the removed "aaab" only, and
    stays. *)
Example dedup_is_not_transitive :
  let config := dedup_on ["name"] (7 # 10) in
  (Qle_bool (7 # 10)
     (_calculate_record_similarity lcs_ratio (person 1 "aaaa") (person 2 "aaab")
        ["name"]) = true)
  /\ (Qle_bool (7 # 10)
        (_calculate_record_similarity lcs_ratio (person 2 "aaab") (person 3 "aabb")
           ["name"]) = true)
  /\ deduplicate_data lcs_ratio
       [person 1 "aaaa"; person 2 "aaab"; person 3 "aabb"] config
     = [person 1 "aaaa"; person 3 "aabb"].
Proof. repeat split; by vm_compute. Qed.

(** ** MergeEngine *)

Lemma concatenate_contract_witness :
  ("name" ∈ dom bob ∪ dom bob_again)
  /\ _merge_concatenate bob bob_again !! "name" = Some (VStr "bob | bob")
  /\ _merge_concatenate bob bob_again !! "id" = Some (VStr "2 | 3").
Proof.
  assert ("name" ∈ dom bob ∪ dom bob_again) as Hn by (by vm_compute).
  assert ("id" ∈ dom bob ∪ dom bob_again) as Hi by (by vm_compute).
  split; [exact Hn|]. split.
  - destruct (concatenate_contract bob bob_again "name") as [H _].
    destruct (H Hn) as [Hboth _]. by apply Hboth.
  - destruct (concatenate_contract bob bob_again "id") as [H _].
    destruct (H Hi) as [Hboth _]. by apply Hboth.
Defined.

(** C6, as stated, fails: two records with the same non-empty name are
    merged to the name repeated around the separator, where the
    specification keeps the single value. *)
Lemma concatenate_duplicates_equal_values :
  bob !! "name" = Some (VStr "bob")
  /\ bob_again !! "name" = Some (VStr "bob")
  /\ spec_concatenate_value bob bob_again "name" = VStr "bob"
  /\ _merge_concatenate bob bob_again !! "name" = Some (VStr "bob | bob")
  /\ _merge_concatenate bob bob_again !! "name"
     <> Some (spec_concatenate_value bob bob_again "name").
Proof. repeat split; by vm_compute. Qed.

Lemma unknown_strategy_witness :
  let df := pd_DataFrame [john_1; john_2] in
  let m := {| entity_1_index := 0; entity_2_index := 1;
              entity_1_id := VInt 1; entity_2_id := VInt 2;
              similarity_score := 1%Q;
              matching_fields := ["name"; "email"] |} in
  ("newest_wins" ∉ ["latest_wins"; "first_wins"; "concatenate"])
  /\ merge_step df "newest_wins" ([], ∅) m
     = inr ([ <["_similarity_score" := OFloat 1%Q]>
                (<["_merged_from" := OList [VInt 1; VInt 2]]>
                   (to_dict john_1)) ],
            {[0; 1]} ∪ ∅)
  /\ exists out, _merge_matched_entities df [m] "newest_wins" = inr out.
Proof.
  intros df m.
  assert ("newest_wins" ∉ ["latest_wins"; "first_wins"; "concatenate"])
    as Hs by (apply (bool_decide_eq_false_1 (_ ∈ _)); by vm_compute).
  split; [exact Hs|].
  destruct (unknown_strategy_defaults_to_first_record "newest_wins" Hs)
    as [Hstep Htotal].
  split.
  - apply (Hstep df [] ∅ m john_1 john_2); [set_solver|set_solver|..];
      by vm_compute.
  - apply Htotal. apply Forall_singleton. split; cbn; lia.
Defined.

(** C3, as stated, fails: the strategy [newest_wins] is none of the three,
    and the merge of the two johns returns one record, the first john with
    the provenance and the score, instead of failing. *)
Lemma unknown_strategy_is_not_rejected :
  let df := pd_DataFrame [john_1; john_2] in
  let matches :=
    _find_entity_matches lcs_ratio df (match_on ["name"; "email"]) (8 # 10) in
  ("newest_wins" ∉ merge_strategies settings)
  /\ length matches = 1
  /\ _merge_matched_entities df matches "newest_wins"
     = inr [ <["_similarity_score" := OFloat (20000 # 20000)%Q]>
               (<["_merged_from" := OList [VInt 1; VInt 2]]>
                  (to_dict john_1)) ].
Proof.
  intros df matches. split; [|split].
  - apply (bool_decide_eq_false_1 (_ ∈ _)). by vm_compute.
  - by vm_compute.
  - by vm_compute.
Qed.

(** ** ConfidenceAggregator *)

(** C7, as stated, fails: the summary of the empty match list is the empty
    dictionary; it has no count and no zeroed statistic. *)
Lemma empty_summary_is_not_zeroed :
  ~ zeroed_summary (_calculate_confidence_scores std_placeholder []).
Proof. intros [Hcount _]. by vm_compute in Hcount. Qed.

(** ** Reconciliation *)

(** C2, as stated, fails: a request of 10001 pairwise different records,
    one above the default ceiling, is not rejected; it returns a result and
    the history, empty before, holds one completed job of 10001 records. *)
Lemma oversized_batch_is_reconciled :
  let data := batch (Z.to_nat 10001) in
  (Z.of_nat (length data) > max_batch_size settings)%Z
  /\ exists res job,
       reconcile_entities lcs_ratio std_placeholder sample_env new_client
         data (match_on ["name"]) "customer" (8 # 10) true "latest_wins"
       = ({| reconciliation_history := [job] |}, inr res)
       /\ job_status job = "completed"
       /\ Z.of_nat (job_original_records job) = 10001%Z.
Proof.
  intros data.
  assert (length data = Z.to_nat 10001) as Hlen.
  { unfold data, batch. by rewrite length_fmap, length_seq. }
  split.
  - rewrite Hlen, Z2Nat.id by lia. by cbn.
  - destruct (reconcile_entities_completes lcs_ratio std_placeholder
                sample_env new_client data (match_on ["name"]) "customer"
                (8 # 10) true "latest_wins")
      as (res & job & Hrun & Hstatus & Horig & _).
    exists res, job. split; [exact Hrun|]. split; [exact Hstatus|].
    rewrite Horig, Hlen, Z2Nat.id by lia. done.
Qed.

(** C1, on the code: after deduplication has removed a row, the labels of
    the frame are no longer its positions, and the merge, which claims
    positions and passes rows through by label, breaks conservation. With
    rows ann, bob, bob (labels 0, 2, 3) the pair of bobs is merged and the
    second bob is passed through again: three outputs for three records
    and one pair. With rows bob, ann, bob the pair of bobs is merged, ann
    is dropped and the second bob is passed through again. *)
Theorem merge_after_dedup_breaks_conservation :
  let config := match_on ["name"] in
  let merged_bobs : OutRecord :=
    <["_similarity_score" := OFloat (100 # 100)%Q]>
      (<["_merged_from" := OList [VInt 2; VInt 3]]> (to_dict bob_again)) in
  let df1 :=
    _deduplicate_dataframe lcs_ratio
      (pd_DataFrame [ann; ann; bob; bob_again]) config in
  let df2 :=
    _deduplicate_dataframe lcs_ratio
      (pd_DataFrame [bob; bob; ann; bob_again]) config in
  (to_records df1 = [ann; bob; bob_again]
   /\ length (_find_entity_matches lcs_ratio df1 config (8 # 10)) = 1
   /\ _merge_matched_entities df1
        (_find_entity_matches lcs_ratio df1 config (8 # 10)) "latest_wins"
      = inr [merged_bobs; to_dict ann; to_dict bob_again])
  /\ (to_records df2 = [bob; ann; bob_again]
      /\ length (_find_entity_matches lcs_ratio df2 config (8 # 10)) = 1
      /\ _merge_matched_entities df2
           (_find_entity_matches lcs_ratio df2 config (8 # 10)) "latest_wins"
         = inr [merged_bobs; to_dict bob_again]).
Proof. repeat split; by vm_compute. Qed.

(** * Further properties of the engine *)

(** ** Trimming and case folding *)

(** [String.append] does not simplify by itself: unfold one step. *)
Ltac string_step := cbv [String.append]; fold String.append.

Lemma string_app_nil_r (s : string) : (s ++ "")%string = s.
Proof. induction s as [|c s IH]; [done|]. string_step. by rewrite IH. Qed.

Lemma string_app_assoc (a b c : string) :
  ((a ++ b) ++ c)%string = (a ++ (b ++ c))%string.
Proof. induction a as [|x a IH]; [done|]. string_step. by rewrite IH. Qed.

Lemma string_rev_onto_acc (s acc : string) :
  string_rev_onto s acc = (string_rev_onto s "" ++ acc)%string.
Proof.
  revert acc. induction s as [|c s IH]; intros acc; [done|].
  cbn. rewrite (IH (String c acc)), (IH (String c "")).
  by rewrite string_app_assoc.
Qed.

Lemma string_rev_onto_app (a b acc : string) :
  string_rev_onto (a ++ b) acc = string_rev_onto b (string_rev_onto a acc).
Proof. revert acc. induction a as [|x a IH]; intros acc; [done|]. apply IH. Qed.

Lemma string_rev_involutive (s : string) :
  string_rev_onto (string_rev_onto s "") "" = s.
Proof.
  induction s as [|c s IH]; [done|].
  cbn. rewrite (string_rev_onto_acc s (String c "")), string_rev_onto_app.
  cbn. by rewrite IH.
Qed.

Lemma py_lstrip_idemp (s : string) : py_lstrip (py_lstrip s) = py_lstrip s.
Proof.
  induction s as [|c s IH]; [done|].
  cbn. destruct (py_isspace c) eqn:E; [done|]. cbn. by rewrite E.
Qed.

Lemma py_rstrip_idemp (s : string) : py_rstrip (py_rstrip s) = py_rstrip s.
Proof.
  unfold py_rstrip. by rewrite string_rev_involutive, py_lstrip_idemp.
Qed.

Lemma py_lstrip_app (x : string) (c : ascii) (a : string) :
  py_isspace c = false ->
  py_lstrip (x ++ String c a) = (py_lstrip x ++ String c a)%string.
Proof.
  intros Hc. induction x as [|d x IH]; string_step.
  - cbn. by rewrite Hc.
  - cbn. destruct (py_isspace d); [done|]. by string_step.
Qed.

Lemma py_rstrip_head (c : ascii) (s : string) :
  py_isspace c = false ->
  exists s', py_rstrip (String c s) = String c s'.
Proof.
  intros Hc. unfold py_rstrip. cbn.
  rewrite (string_rev_onto_acc s (String c "")), py_lstrip_app by done.
  rewrite string_rev_onto_app. cbn. by eexists.
Qed.

Lemma py_lstrip_head (s : string) :
  py_lstrip s = ""
  \/ exists c s', py_lstrip s = String c s' /\ py_isspace c = false.
Proof.
  induction s as [|c s IH]; [by left|].
  cbn. destruct (py_isspace c) eqn:E; [done|]. right. by exists c, s.
Qed.

Lemma py_strip_idemp (s : string) : py_strip (py_strip s) = py_strip s.
Proof.
  unfold py_strip.
  destruct (py_lstrip_head s) as [->|(c & s' & -> & Hc)]; [done|].
  destruct (py_rstrip_head c s' Hc) as [s'' Hr].
  replace (py_lstrip (py_rstrip (String c s'))) with (py_rstrip (String c s')).
  - apply py_rstrip_idemp.
  - rewrite Hr. cbn. by rewrite Hc.
Qed.

Lemma py_isspace_lower (c : ascii) : py_isspace (ascii_lower c) = py_isspace c.
Proof. by destruct c as [[] [] [] [] [] [] [] []]. Qed.

Lemma ascii_lower_idemp (c : ascii) : ascii_lower (ascii_lower c) = ascii_lower c.
Proof. by destruct c as [[] [] [] [] [] [] [] []]. Qed.

Lemma py_lower_idemp (s : string) : py_lower (py_lower s) = py_lower s.
Proof.
  induction s as [|c s IH]; [done|]. cbn. by rewrite ascii_lower_idemp, IH.
Qed.

Lemma py_lower_lstrip (s : string) :
  py_lower (py_lstrip s) = py_lstrip (py_lower s).
Proof.
  induction s as [|c s IH]; [done|].
  cbn. rewrite py_isspace_lower. by destruct (py_isspace c).
Qed.

Lemma py_lower_rev_onto (s acc : string) :
  py_lower (string_rev_onto s acc)
  = string_rev_onto (py_lower s) (py_lower acc).
Proof. revert acc. induction s as [|c s IH]; intros acc; [done|]. apply IH. Qed.

Lemma py_lower_strip (s : string) :
  py_lower (py_strip s) = py_strip (py_lower s).
Proof.
  unfold py_strip, py_rstrip.
  by rewrite py_lower_rev_onto, py_lower_lstrip, py_lower_rev_onto,
    py_lower_lstrip.
Qed.

Lemma normalize_idemp (v : value) :
  normalize (VStr (normalize v)) = normalize v.
Proof.
  unfold normalize. cbn [py_str].
  by rewrite <- py_lower_strip, py_lower_idemp, py_strip_idemp.
Qed.

(** ** More on the scorer *)

Section ScorerExtras.

Variable fuzz_ratio : string -> string -> Z.

Lemma similarities_replicate record1 record2 (fields : list string) :
  (forall a, a <> "" -> fuzz_ratio a a = 100%Z) ->
  (forall f v1 v2,
      f ∈ fields -> record1 !! f = Some v1 -> record2 !! f = Some v2 ->
      normalize v1 = normalize v2) ->
  omap (field_similarity fuzz_ratio record1 record2) fields
  = replicate
      (length (filter (fun f => contributes record1 record2 f = true) fields))
      (inject_Z 100 / 100)%Q.
Proof.
  intros Hrefl. induction fields as [|f fields IH]; intros Hsame; [done|].
  cbn [omap list_omap]. rewrite filter_cons.
  rewrite IH by (intros ?????; eapply Hsame; [by right|done..]).
  rewrite field_similarity_contributes.
  destruct (contributes record1 record2 f) eqn:Hc.
  - rewrite decide_True by done. cbn [length replicate]. f_equal.
    unfold contributes in Hc. unfold spec_field_similarity.
    destruct (record1 !! f) as [v1|] eqn:E1; [|done].
    destruct (record2 !! f) as [v2|] eqn:E2; [|done].
    cbn [from_option id]. rewrite (Hsame f v1 v2) by (done || by left).
    apply andb_true_iff in Hc as [_ Hc].
    apply negb_true_iff, bool_decide_eq_false in Hc. by rewrite Hrefl.
  - by rewrite decide_False by done.
Qed.

Lemma np_mean_replicate (n : nat) (q : Q) :
  (np_mean (replicate (S n) q) == q)%Q.
Proof.
  unfold np_mean. rewrite length_replicate.
  assert (Qsum (replicate (S n) q) == inject_Z (Z.of_nat (S n)) * q)%Q as ->.
  { induction (S n) as [|k IH]; [cbn; ring|].
    cbn [replicate Qsum foldr]. fold (Qsum (replicate k q)).
    rewrite IH, Nat2Z.inj_succ, <- Z.add_1_l, inject_Z_plus. ring. }
  field. change 0%Q with (inject_Z 0). rewrite inject_Z_injective. lia.
Qed.

(** X1. A field that does not contribute (absent from a record, or empty
    once normalised) is left out of the mean, wherever it stands in the
    field list: it does not lower the score. *)
Theorem non_contributing_field_is_ignored
        record1 record2 (before after : list string) (field : string) :
  contributes record1 record2 field = false ->
  _calculate_record_similarity fuzz_ratio record1 record2
    (before ++ field :: after)
  = _calculate_record_similarity fuzz_ratio record1 record2 (before ++ after).
Proof.
  intros Hc. unfold _calculate_record_similarity.
  rewrite !omap_app. cbn [omap list_omap].
  by rewrite field_similarity_contributes, Hc.
Qed.

(** X2. Two records whose values agree after normalisation on every
    listed field they both have score 1 as soon as one field contributes,
    provided the metric gives 100 to equal non-empty strings. *)
Theorem equal_normalized_records_score_one
        record1 record2 (fields : list string) :
  (forall a, a <> "" -> fuzz_ratio a a = 100%Z) ->
  (forall f v1 v2,
      f ∈ fields -> record1 !! f = Some v1 -> record2 !! f = Some v2 ->
      normalize v1 = normalize v2) ->
  (exists f, f ∈ fields /\ contributes record1 record2 f = true) ->
  (_calculate_record_similarity fuzz_ratio record1 record2 fields == 1)%Q.
Proof.
  intros Hrefl Hsame (f & Hf & Hc). unfold _calculate_record_similarity.
  rewrite similarities_replicate by done.
  destruct (filter _ fields) as [|g contributing] eqn:E.
  - assert (f ∈ filter (fun f => contributes record1 record2 f = true) fields)
      as Hin by (by apply list_elem_of_filter).
    rewrite E in Hin. by apply elem_of_nil in Hin.
  - cbn [length replicate].
    change (?q :: replicate ?n ?q) with (replicate (S n) q).
    rewrite np_mean_replicate. reflexivity.
Qed.

Lemma field_similarity_normalized record1 record2 (field : string) :
  field_similarity fuzz_ratio (normalized record1) (normalized record2) field
  = field_similarity fuzz_ratio record1 record2 field.
Proof.
  unfold field_similarity, normalized. rewrite !lookup_fmap.
  destruct (record1 !! field) as [v1|], (record2 !! field) as [v2|];
    cbn [fmap option_fmap option_map]; try done.
  cbv zeta. by rewrite !normalize_idemp.
Qed.

(** X3. The score is insensitive to case and to surrounding white space in
    the strongest sense: normalising every value of both records first
    (trimming and lower-casing are idempotent) leaves the score unchanged. *)
Theorem score_of_normalized_records record1 record2 (fields : list string) :
  _calculate_record_similarity fuzz_ratio
    (normalized record1) (normalized record2) fields
  = _calculate_record_similarity fuzz_ratio record1 record2 fields.
Proof.
  unfold _calculate_record_similarity.
  replace (omap (field_similarity fuzz_ratio (normalized record1)
                   (normalized record2)) fields)
    with (omap (field_similarity fuzz_ratio record1 record2) fields); [done|].
  induction fields as [|f fields IH]; [done|].
  cbn [omap list_omap]. by rewrite IH, field_similarity_normalized.
Qed.

End ScorerExtras.

(** ** More on the matcher *)

Lemma StronglySorted_seq (k n : nat) : StronglySorted lt (seq k n).
Proof.
  revert k. induction n as [|n IH]; intros k; [constructor|].
  cbn. apply StronglySorted_cons. split; [|apply IH].
  apply Forall_forall. intros x Hx. apply elem_of_seq in Hx. lia.
Qed.

Lemma fst_positions_drop (df : DataFrame) (k : nat) :
  fst <$> drop k (positions df) = drop k (seq 0 (length df)).
Proof. by rewrite fmap_drop, fst_positions. Qed.

Lemma StronglySorted_drop {A} (R : relation A) (l : list A) (k : nat) :
  StronglySorted R l -> StronglySorted R (drop k l).
Proof.
  intros Hl. rewrite <- (take_drop k l) in Hl.
  by apply StronglySorted_app_1_r in Hl.
Qed.

Section MatcherExtras.

Variable fuzz_ratio : string -> string -> Z.

Lemma match_inner_matches_from fields (t : Q) i ri rest :
  forall acc,
    match_inner fuzz_ratio fields t i ri acc rest
    = acc ++ matches_from fuzz_ratio fields t i ri rest.
Proof.
  unfold match_inner, matches_from.
  induction rest as [|[j rj] rest IH]; intros acc.
  - cbn. by rewrite app_nil_r.
  - cbn [foldl omap list_omap]. rewrite IH.
    destruct (Qle_bool t _); [|done].
    by rewrite <- app_assoc.
Qed.

Lemma match_outer_bind fields (t : Q) (P l : list (nat * Series)) :
  forall acc,
    foldl (fun matches '(i, ri) =>
             match_inner fuzz_ratio fields t i ri matches (drop (S i) P))
          acc l
    = acc ++ (l ≫= fun '(i, ri) =>
                     matches_from fuzz_ratio fields t i ri (drop (S i) P)).
Proof.
  induction l as [|[i ri] l IH]; intros acc.
  - cbn. by rewrite app_nil_r.
  - cbn [foldl]. rewrite IH, match_inner_matches_from, bind_cons.
    by rewrite <- app_assoc.
Qed.

Lemma find_entity_matches_bind df config (t : Q) f fields :
  default [] (cfg_matching_fields config) = f :: fields ->
  _find_entity_matches fuzz_ratio df config t
  = positions df ≫= fun '(i, ri) =>
      matches_from fuzz_ratio (f :: fields) t i ri
        (drop (S i) (positions df)).
Proof.
  intros Hf. unfold _find_entity_matches. rewrite Hf.
  by rewrite match_outer_bind.
Qed.

Lemma elem_of_matches_from fields (t : Q) i ri rest m :
  m ∈ matches_from fuzz_ratio fields t i ri rest <->
  exists j rj,
    (j, rj) ∈ rest
    /\ Qle_bool t (_calculate_record_similarity fuzz_ratio ri rj fields) = true
    /\ m = candidate fuzz_ratio fields i ri j rj.
Proof.
  unfold matches_from. rewrite list_elem_of_omap. split.
  - intros ([j rj] & Hin & Hm). exists j, rj.
    destruct (Qle_bool t _) eqn:E; [|done]. by injection Hm as <-.
  - intros (j & rj & Hin & Hs & ->). exists (j, rj). by rewrite Hs.
Qed.

Lemma elem_of_find_entity_matches df config (t : Q) f fields m :
  default [] (cfg_matching_fields config) = f :: fields ->
  m ∈ _find_entity_matches fuzz_ratio df config t <->
  exists i j ri rj,
    i < j /\ iloc df i = Some ri /\ iloc df j = Some rj
    /\ Qle_bool t (_calculate_record_similarity fuzz_ratio ri rj (f :: fields))
       = true
    /\ m = candidate fuzz_ratio (f :: fields) i ri j rj.
Proof.
  intros Hf. rewrite (find_entity_matches_bind df config t f fields Hf).
  rewrite list_elem_of_bind. split.
  - intros ([i ri] & Hm & Hi).
    apply elem_of_matches_from in Hm as (j & rj & Hj & Hs & ->).
    apply elem_of_positions in Hi.
    apply elem_of_positions_drop in Hj as [Hij Hj].
    exists i, j, ri, rj. repeat split; [lia|done..].
  - intros (i & j & ri & rj & Hij & Hi & Hj & Hs & ->).
    exists (i, ri). split; [|by apply elem_of_positions].
    apply elem_of_matches_from. exists j, rj.
    split; [|done]. apply elem_of_positions_drop. split; [lia|done].
Qed.

(** X4. The matcher is sound and complete: with a non-empty field list,
    what it returns is exactly the set of candidates of the pairs of rows
    at positions i < j whose score reaches the threshold, each carrying
    its two positions, the two ids (the position as a string where a row
    has no id), the score and the field list. *)
Theorem find_entity_matches_spec df config (t : Q) f fields m :
  default [] (cfg_matching_fields config) = f :: fields ->
  m ∈ _find_entity_matches fuzz_ratio df config t <->
  exists i j ri rj,
    i < j /\ iloc df i = Some ri /\ iloc df j = Some rj
    /\ Qle_bool t (_calculate_record_similarity fuzz_ratio ri rj (f :: fields))
       = true
    /\ m = candidate fuzz_ratio (f :: fields) i ri j rj.
Proof. apply elem_of_find_entity_matches. Qed.

Lemma matches_from_sorted fields (t : Q) i ri rest :
  StronglySorted lt (fst <$> rest) ->
  StronglySorted pair_lt (matches_from fuzz_ratio fields t i ri rest).
Proof.
  unfold matches_from.
  induction rest as [|[j rj] rest IH]; intros Hs; [constructor|].
  rewrite fmap_cons in Hs. apply StronglySorted_cons in Hs as [Hj Hs].
  cbn [omap list_omap]. destruct (Qle_bool t _); [|by apply IH].
  apply StronglySorted_cons. split; [|by apply IH].
  apply Forall_forall. intros m Hm.
  apply (elem_of_matches_from fields t i ri rest m) in Hm
    as (j' & rj' & Hin & _ & ->).
  right. split; [done|]. cbn. rewrite Forall_forall in Hj.
  apply Hj. apply list_elem_of_fmap. by exists (j', rj').
Qed.

Lemma match_outer_sorted fields (t : Q) (P l : list (nat * Series)) :
  StronglySorted lt (fst <$> P) ->
  StronglySorted lt (fst <$> l) ->
  StronglySorted pair_lt
    (l ≫= fun '(i, ri) =>
            matches_from fuzz_ratio fields t i ri (drop (S i) P)).
Proof.
  intros HP. induction l as [|[i ri] l IH]; intros Hl; [constructor|].
  rewrite fmap_cons in Hl. apply StronglySorted_cons in Hl as [Hi Hl].
  rewrite bind_cons. apply StronglySorted_app_2.
  - intros m1 m2 Hm1 Hm2.
    apply elem_of_matches_from in Hm1 as (j & rj & _ & _ & ->).
    apply list_elem_of_bind in Hm2 as ([i' ri'] & Hm2 & Hi').
    apply elem_of_matches_from in Hm2 as (j' & rj' & _ & _ & ->).
    left. cbn. rewrite Forall_forall in Hi. apply Hi.
    apply list_elem_of_fmap. by exists (i', ri').
  - apply matches_from_sorted. rewrite fmap_drop.
    by apply StronglySorted_drop.
  - by apply IH.
Qed.

(** X5. The matcher lists its candidates in strictly increasing
    lexicographic order of their index pairs, so that no pair of rows is
    reported twice. *)
Theorem find_entity_matches_sorted df config (t : Q) :
  StronglySorted pair_lt (_find_entity_matches fuzz_ratio df config t).
Proof.
  destruct (default [] (cfg_matching_fields config)) as [|f fields] eqn:Hf.
  - unfold _find_entity_matches. rewrite Hf. constructor.
  - rewrite (find_entity_matches_bind df config t f fields Hf).
    apply match_outer_sorted; rewrite fst_positions; apply StronglySorted_seq.
Qed.

Lemma length_matches_from fields (t : Q) i ri rest :
  length (matches_from fuzz_ratio fields t i ri rest) <= length rest.
Proof.
  unfold matches_from. induction rest as [|[j rj] rest IH]; [done|].
  cbn [omap list_omap length]. destruct (Qle_bool t _); cbn [length]; lia.
Qed.

Lemma match_outer_count fields (t : Q) (P l : list (nat * Series)) :
  forall k,
    fst <$> l = seq k (length l) ->
    k + length l = length P ->
    2 * length (l ≫= fun '(i, ri) =>
                  matches_from fuzz_ratio fields t i ri (drop (S i) P))
    <= length l * (length l - 1).
Proof.
  induction l as [|[i ri] l IH]; intros k Hl Hk; [done|].
  cbn [length fmap list_fmap seq] in Hl, Hk. injection Hl as -> Hl.
  rewrite bind_cons, length_app.
  pose proof (length_matches_from fields t k ri (drop (S k) P)) as H1.
  rewrite length_drop in H1.
  specialize (IH (S k) Hl ltac:(lia)).
  cbn [length]. nia.
Qed.

Lemma length_find_entity_matches df config (t : Q) :
  2 * length (_find_entity_matches fuzz_ratio df config t)
  <= length df * (length df - 1).
Proof.
  destruct (default [] (cfg_matching_fields config)) as [|f fields] eqn:Hf.
  - unfold _find_entity_matches. rewrite Hf. cbn. lia.
  - rewrite (find_entity_matches_bind df config t f fields Hf).
    assert (length (positions df) = length df) as Hlen
        by (unfold positions; apply length_imap).
    rewrite <- Hlen.
    apply (match_outer_count (f :: fields) t (positions df) (positions df) 0).
    + by rewrite fst_positions, Hlen.
    + done.
Qed.

(** X6. Over n rows the matcher returns at most n(n-1)/2 candidates. *)
Theorem find_entity_matches_count df config (t : Q) :
  2 * length (_find_entity_matches fuzz_ratio df config t)
  <= length df * (length df - 1).
Proof. apply length_find_entity_matches. Qed.

End MatcherExtras.

(** ** More on the deduplicator *)

Lemma drop_duplicates_from_spec (df : DataFrame) :
  forall seen,
    let out := drop_duplicates_from seen df in
    NoDup ((fun lr => row_key lr.2) <$> out)
    /\ (forall lr, lr ∈ out -> row_key lr.2 ∉ seen)
    /\ (forall lr, lr ∈ df ->
          row_key lr.2 ∈ seen
          \/ row_key lr.2 ∈ (fun lr => row_key lr.2) <$> out).
Proof.
  induction df as [|[lbl r] df IH]; intros seen out.
  - split; [constructor|]. split; intros lr Hlr; by apply elem_of_nil in Hlr.
  - unfold out. cbn [drop_duplicates_from]. case_bool_decide as Hseen.
    + destruct (IH seen) as (Hnd & Hfresh & Hcov).
      split; [done|]. split; [done|].
      intros lr [->|Hin]%elem_of_cons; [by left|by apply Hcov].
    + destruct (IH (row_key r :: seen)) as (Hnd & Hfresh & Hcov).
      split; [|split].
      * rewrite fmap_cons. apply NoDup_cons. split; [|done].
        intros (lr & Hk & Hin)%list_elem_of_fmap.
        apply (Hfresh lr Hin). cbn in Hk. rewrite <- Hk. by left.
      * intros lr [->|Hin]%elem_of_cons; [done|].
        intros Hs. apply (Hfresh lr Hin). by right.
      * intros lr [->|Hin]%elem_of_cons.
        -- right. rewrite fmap_cons. by left.
        -- destruct (Hcov lr Hin) as [[Hk|Hs]%elem_of_cons|Hk].
           ++ right. rewrite fmap_cons, Hk. by left.
           ++ by left.
           ++ right. rewrite fmap_cons. by right.
Qed.

Lemma drop_duplicates_from_first (df : DataFrame) :
  forall seen p lr,
    df !! p = Some lr ->
    row_key lr.2 ∉ seen ->
    (forall q lr', q < p -> df !! q = Some lr' ->
                   row_key lr'.2 <> row_key lr.2) ->
    lr ∈ drop_duplicates_from seen df.
Proof.
  induction df as [|[lbl r] df IH]; intros seen p lr Hp Hseen Hfirst; [done|].
  cbn [drop_duplicates_from]. destruct p as [|p].
  - cbn in Hp. injection Hp as <-. cbn in Hseen.
    rewrite bool_decide_eq_false_2 by done. by left.
  - cbn in Hp.
    assert (row_key r <> row_key lr.2) as Hne.
    { apply (Hfirst 0 (lbl, r)); [lia|done]. }
    assert (forall q lr', q < p -> df !! q = Some lr' ->
                          row_key lr'.2 <> row_key lr.2) as Hfirst'.
    { intros q lr' Hq Hlr'. apply (Hfirst (S q) lr'); [lia|done]. }
    case_bool_decide.
    + by eapply IH.
    + right. eapply IH; [done| |done].
      intros [?|?]%elem_of_cons; [congruence|done].
Qed.

(** X7. The exact-duplicate pass returns a frame without columns or rows
    as it is. Of a frame with at least one column it keeps, in order, the
    first row of every group of rows that are equal up to the
    identification of missing values: no two kept rows are equal in that
    sense. In both cases every row of the frame has its equal among the
    kept rows, and a row with no equal before it is kept. *)
Theorem drop_duplicates_keeps_first_occurrences (df : DataFrame) :
  drop_duplicates df `sublist_of` df
  /\ (df_empty df = true -> drop_duplicates df = df)
  /\ (df_empty df = false ->
      NoDup ((fun lr => row_key lr.2) <$> drop_duplicates df))
  /\ (forall lr, lr ∈ df ->
        row_key lr.2 ∈ (fun lr => row_key lr.2) <$> drop_duplicates df)
  /\ (forall p lr,
        df !! p = Some lr ->
        (forall q lr', q < p -> df !! q = Some lr' ->
                       row_key lr'.2 <> row_key lr.2) ->
        lr ∈ drop_duplicates df).
Proof.
  split; [apply drop_duplicates_sublist|].
  unfold drop_duplicates.
  destruct (drop_duplicates_from_spec df []) as (Hnd & _ & Hcov).
  destruct (df_empty df).
  - split; [done|]. split; [done|]. split.
    + intros lr Hlr. apply list_elem_of_fmap. by exists lr.
    + intros p lr Hp _. by eapply list_elem_of_lookup_2.
  - split; [done|]. split; [done|]. split.
    + intros lr Hlr. destruct (Hcov lr Hlr) as [Hnil|]; [|done].
      by apply elem_of_nil in Hnil.
    + intros p lr Hp Hfirst.
      eapply drop_duplicates_from_first; [done| |done].
      apply not_elem_of_nil.
Qed.

Lemma df_drop_empty (df : DataFrame) : df_drop df ∅ = df.
Proof.
  unfold df_drop. induction df as [|lr df IH]; [done|].
  rewrite filter_cons, decide_True by apply not_elem_of_empty. by rewrite IH.
Qed.

Lemma index_at_empty (df : DataFrame) : index_at df ∅ = ∅.
Proof. unfold index_at. by rewrite elements_empty. Qed.

Lemma unmatched_rows_empty (df : DataFrame) :
  unmatched_rows df ∅ = to_dict <$> to_records df.
Proof.
  unfold unmatched_rows. fold (df_drop df ∅). rewrite df_drop_empty.
  unfold to_records. by rewrite <- list_fmap_compose.
Qed.

Section DedupExtras.

Variable fuzz_ratio : string -> string -> Z.

Lemma deduplicate_frame_pairwise (df : DataFrame) config f fields :
  cfg_similarity_fields config = Some (f :: fields) ->
  forall i j ri rj,
    i < j ->
    iloc (_deduplicate_dataframe fuzz_ratio df config) i = Some ri ->
    iloc (_deduplicate_dataframe fuzz_ratio df config) j = Some rj ->
    Qle_bool (default (9 # 10)%Q (cfg_similarity_threshold config))
      (_calculate_record_similarity fuzz_ratio ri rj (f :: fields)) = false.
Proof.
  intros Hf i j ri rj Hij. unfold _deduplicate_dataframe.
  rewrite Hf. cbn [from_option id].
  set (t := default _ _). set (df1 := drop_duplicates df).
  unfold iloc, df_drop. intros Hi Hj.
  destruct (filter _ df1 !! i) as [[li ri']|] eqn:Ei; [|done].
  destruct (filter _ df1 !! j) as [[lj rj']|] eqn:Ej; [|done].
  cbn in Hi, Hj. injection Hi as ->. injection Hj as ->.
  destruct (filter_lookup_ordered _ df1 i j _ _ Hij Ei Ej)
    as (p & q & Hpq & Hp & Hq & Hlp & Hlq).
  apply (dedup_outer_survivors fuzz_ratio (f :: fields) t df1 p q ri rj);
    [done|by unfold iloc; rewrite Hp|by unfold iloc; rewrite Hq|..];
    by eapply df_drop_survivor.
Qed.

Lemma dedup_then_match_is_empty (df : DataFrame) config f fields (t : Q) :
  cfg_similarity_fields config = Some (f :: fields) ->
  cfg_matching_fields config = Some (f :: fields) ->
  (default (9 # 10)%Q (cfg_similarity_threshold config) <= t)%Q ->
  _find_entity_matches fuzz_ratio
    (_deduplicate_dataframe fuzz_ratio df config) config t = [].
Proof.
  intros Hs Hm Ht.
  destruct (_find_entity_matches _ _ _ _) as [|m matches] eqn:E; [done|].
  assert (m ∈ _find_entity_matches fuzz_ratio
                (_deduplicate_dataframe fuzz_ratio df config) config t)
    as Hin by (rewrite E; by left).
  apply (elem_of_find_entity_matches fuzz_ratio _ config t f fields m) in Hin
    as (i & j & ri & rj & Hij & Hi & Hj & Hscore & _); [|by rewrite Hm].
  pose proof (Qle_bool_trans _ _ _ Ht Hscore) as Hhigh.
  pose proof (deduplicate_frame_pairwise df config f fields Hs i j ri rj
                Hij Hi Hj) as Hlow.
  congruence.
Qed.

End DedupExtras.

Lemma drop_duplicates_from_id (df : DataFrame) :
  forall seen,
    NoDup ((fun lr => row_key lr.2) <$> df) ->
    (forall lr, lr ∈ df -> row_key lr.2 ∉ seen) ->
    drop_duplicates_from seen df = df.
Proof.
  induction df as [|[lbl r] df IH]; intros seen Hnd Hseen; [done|].
  rewrite fmap_cons in Hnd. apply NoDup_cons in Hnd as [Hr Hnd].
  cbn [drop_duplicates_from].
  rewrite bool_decide_eq_false_2 by (apply (Hseen (lbl, r)); by left).
  f_equal. apply IH; [done|].
  intros lr Hlr [Hk|Hs]%elem_of_cons.
  - apply Hr. apply list_elem_of_fmap. by exists lr.
  - apply (Hseen lr); [by right|done].
Qed.

Lemma df_empty_sublist (df1 df : DataFrame) :
  df1 `sublist_of` df -> df_empty df = true -> df_empty df1 = true.
Proof.
  unfold df_empty. intros Hsub Hdf.
  apply bool_decide_eq_true in Hdf. apply bool_decide_eq_true.
  apply set_eq. intros k. split; [|intros Hk; by apply not_elem_of_empty in Hk].
  intros (X & (lr & -> & Hlr)%list_elem_of_fmap & Hk)%elem_of_union_list.
  rewrite <- Hdf. apply elem_of_union_list. exists (dom lr.2).
  split; [|done]. apply list_elem_of_fmap. exists lr. split; [done|].
  eapply elem_of_submseteq; [done|by apply sublist_submseteq].
Qed.

Lemma drop_duplicates_of_kept (df1 df : DataFrame) :
  df1 `sublist_of` drop_duplicates df -> drop_duplicates df1 = df1.
Proof.
  intros Hsub. unfold drop_duplicates at 1.
  destruct (df_empty df1) eqn:E1; [done|].
  apply drop_duplicates_from_id; [|intros ??; apply not_elem_of_nil].
  unfold drop_duplicates in Hsub. destruct (df_empty df) eqn:E.
  - by rewrite (df_empty_sublist df1 df Hsub E) in E1.
  - destruct (drop_duplicates_from_spec df []) as (Hnd & _ & _).
    eapply sublist_NoDup; [exact Hnd|]. by apply fmap_sublist.
Qed.

Section DedupFixpoint.

Variable fuzz_ratio : string -> string -> Z.

Lemma dedup_inner_none fields (t : Q) (ri : Series)
      (rest : list (nat * Series)) (to_remove : gset nat) :
  (forall j rj, (j, rj) ∈ rest ->
     Qle_bool t (_calculate_record_similarity fuzz_ratio ri rj fields) = false) ->
  dedup_inner fuzz_ratio fields t ri to_remove rest = to_remove.
Proof.
  unfold dedup_inner. revert to_remove.
  induction rest as [|[j rj] rest IH]; intros to_remove Hlow; [done|].
  cbn [foldl]. rewrite (Hlow j rj) by (by left).
  assert ((if bool_decide (j ∈ to_remove) then to_remove else to_remove)
          = to_remove) as -> by (by destruct (bool_decide _)).
  apply IH. intros j' rj' Hin. apply (Hlow j' rj'). by right.
Qed.

Lemma dedup_outer_none fields (t : Q) (df : DataFrame) :
  (forall i j ri rj,
      i < j -> iloc df i = Some ri -> iloc df j = Some rj ->
      Qle_bool t (_calculate_record_similarity fuzz_ratio ri rj fields) = false) ->
  dedup_outer fuzz_ratio fields t df = ∅.
Proof.
  intros Hlow. unfold dedup_outer.
  assert (forall l : list (nat * Series),
             (forall i ri, (i, ri) ∈ l -> iloc df i = Some ri) ->
             foldl (fun (to_remove : gset nat) '(i, ri) =>
                      if bool_decide (i ∈ to_remove) then to_remove
                      else dedup_inner fuzz_ratio fields t ri to_remove
                             (drop (S i) (positions df)))
                   ∅ l = ∅) as Hfold.
  { induction l as [|[i ri] l IH]; intros Hl; [done|].
    cbn [foldl]. rewrite bool_decide_eq_false_2 by apply not_elem_of_empty.
    rewrite dedup_inner_none.
    - apply IH. intros i' ri' Hin. apply Hl. by right.
    - intros j rj [Hij Hj]%elem_of_positions_drop.
      apply (Hlow i j); [lia| |done]. apply Hl. by left. }
  apply Hfold. intros i ri. by rewrite elem_of_positions.
Qed.

Lemma deduplicate_dataframe_sublist_kept (df : DataFrame) config :
  _deduplicate_dataframe fuzz_ratio df config
  `sublist_of` drop_duplicates df.
Proof.
  unfold _deduplicate_dataframe.
  destruct (default [] (cfg_similarity_fields config)); [done|].
  apply sublist_filter.
Qed.

Lemma deduplicate_dataframe_fixpoint (df : DataFrame) config :
  drop_duplicates df = df ->
  (forall f fields,
      cfg_similarity_fields config = Some (f :: fields) ->
      forall i j ri rj,
        i < j -> iloc df i = Some ri -> iloc df j = Some rj ->
        Qle_bool (default (9 # 10)%Q (cfg_similarity_threshold config))
          (_calculate_record_similarity fuzz_ratio ri rj (f :: fields))
        = false) ->
  _deduplicate_dataframe fuzz_ratio df config = df.
Proof.
  intros Hexact Hlow. unfold _deduplicate_dataframe. rewrite Hexact.
  destruct (cfg_similarity_fields config) as [[|f fields]|] eqn:Hf;
    cbn [from_option id]; try done.
  rewrite dedup_outer_none by (by apply Hlow).
  by rewrite index_at_empty, df_drop_empty.
Qed.

Lemma deduplicate_dataframe_idempotent_aux (df : DataFrame) config :
  _deduplicate_dataframe fuzz_ratio
    (_deduplicate_dataframe fuzz_ratio df config) config
  = _deduplicate_dataframe fuzz_ratio df config.
Proof.
  apply deduplicate_dataframe_fixpoint.
  - eapply drop_duplicates_of_kept, deduplicate_dataframe_sublist_kept.
  - intros f fields Hf i j ri rj Hij Hi Hj.
    by eapply (deduplicate_frame_pairwise fuzz_ratio df).
Qed.

(** X8. The deduplication of a frame is idempotent: applied to the frame
    it has returned, with the same configuration, [_deduplicate_dataframe]
    returns that frame unchanged, labels included. *)
Theorem deduplicate_dataframe_idempotent (df : DataFrame) config :
  _deduplicate_dataframe fuzz_ratio
    (_deduplicate_dataframe fuzz_ratio df config) config
  = _deduplicate_dataframe fuzz_ratio df config.
Proof. apply deduplicate_dataframe_idempotent_aux. Qed.

(** X9. Deduplication never removes the first record: the output starts
    with the first row of the frame. *)
Theorem deduplicate_data_keeps_first_record data config :
  head (deduplicate_data fuzz_ratio data config)
  = head (to_records (pd_DataFrame data)).
Proof.
  unfold deduplicate_data, _deduplicate_dataframe.
  pose proof (drop_duplicates_labels_NoDup data) as Hnd.
  destruct (pd_DataFrame data) as [|[lbl r] df] eqn:Hdf.
  { unfold drop_duplicates. cbn. by destruct (df_empty []), (default _ _). }
  assert (exists df', drop_duplicates ((lbl, r) :: df) = (lbl, r) :: df')
    as [df' Hhead].
  { unfold drop_duplicates. destruct (df_empty _); [by eexists|].
    cbn [drop_duplicates_from].
    rewrite bool_decide_eq_false_2 by apply not_elem_of_nil. by eexists. }
  rewrite Hhead in *.
  set (df1 := (lbl, r) :: df') in *.
  destruct (default [] (cfg_similarity_fields config)) as [|f fields]; [done|].
  set (T := dedup_outer fuzz_ratio (f :: fields)
              (default (9 # 10)%Q (cfg_similarity_threshold config)) df1).
  assert (0 ∉ T) as H0.
  { intros (i & _ & _ & Hlt & _)%dedup_outer_removed. lia. }
  pose proof (df_drop_keeps df1 T 0 (lbl, r) Hnd eq_refl H0) as Hkept.
  apply list_elem_of_filter in Hkept as [Hlbl _].
  unfold df_drop, df1. rewrite filter_cons, decide_True by done. done.
Qed.

(** X10. When the near-duplicate pass and the matcher use the same
    non-empty field list and the duplicate threshold does not exceed the
    match threshold, a reconciliation with deduplication finds no match:
    it reports no matched pair, returns the deduplicated records
    unchanged and an empty confidence summary. *)
Theorem reconcile_after_dedup_finds_no_match
        (np_std : list Q -> Q) env self data config entity_type (t : Q)
        merge_strategy f fields :
  cfg_similarity_fields config = Some (f :: fields) ->
  cfg_matching_fields config = Some (f :: fields) ->
  (default (9 # 10)%Q (cfg_similarity_threshold config) <= t)%Q ->
  exists res,
    (reconcile_entities fuzz_ratio np_std env self data config entity_type t
       true merge_strategy).2 = inr res
    /\ matched_pairs res = 0
    /\ merged_records res
       = to_dict <$> deduplicate_data fuzz_ratio data config
    /\ confidence_scores res = ∅.
Proof.
  intros Hs Hm Ht. unfold reconcile_entities.
  rewrite (dedup_then_match_is_empty fuzz_ratio _ config f fields t Hs Hm Ht).
  cbn. eexists. split; [reflexivity|]. cbn.
  split; [done|]. split; [|done]. apply unmatched_rows_empty.
Qed.

End DedupFixpoint.

(** ** More on the merge *)

Lemma merge_latest_wins_lookup (record1 record2 : Series) (key : string) :
  _merge_latest_wins record1 record2 !! key =
  match record2 !! key with
  | Some v => if blank v then record1 !! key else Some v
  | None => record1 !! key
  end.
Proof.
  unfold _merge_latest_wins.
  apply (map_fold_weak_ind
           (fun (merged : Series) (seen : Series) =>
              merged !! key =
              match seen !! key with
              | Some v => if blank v then record1 !! key else Some v
              | None => record1 !! key
              end)).
  - by rewrite lookup_empty.
  - intros k v seen merged Hk IH.
    assert (negb (bool_decide (v = VNone)) && negb (bool_decide (v = VStr ""))
            = negb (blank v)) as -> by (unfold blank; by rewrite negb_orb).
    destruct (decide (k = key)) as [->|Hne].
    + rewrite lookup_insert_eq. rewrite Hk in IH.
      destruct (blank v); cbn [negb]; [done|]. by rewrite lookup_insert_eq.
    + rewrite (lookup_insert_ne seen) by done.
      destruct (blank v); cbn [negb]; [done|]. by rewrite lookup_insert_ne.
Qed.

Lemma merge_first_wins_lookup (record1 record2 : Series) (key : string) :
  _merge_first_wins record1 record2 !! key =
  match record1 !! key with
  | Some v =>
      if blank v
      then match record2 !! key with Some v2 => Some v2 | None => Some v end
      else Some v
  | None => record2 !! key
  end.
Proof.
  unfold _merge_first_wins.
  apply (map_fold_weak_ind
           (fun (merged : Series) (seen : Series) =>
              merged !! key =
              match record1 !! key with
              | Some v =>
                  if blank v
                  then match seen !! key with
                       | Some v2 => Some v2
                       | None => Some v
                       end
                  else Some v
              | None => seen !! key
              end)).
  - rewrite lookup_empty. by destruct (record1 !! key) as [v|]; [destruct (blank v)|].
  - intros k v seen merged Hk IH.
    destruct (decide (k = key)) as [->|Hne].
    + rewrite lookup_insert_eq. rewrite Hk in IH.
      assert (merged !! key = record1 !! key) as Hm.
      { rewrite IH. by destruct (record1 !! key) as [old|]; [destruct (blank old)|]. }
      rewrite Hm. destruct (record1 !! key) as [old|].
      * fold (blank old).
        destruct (blank old) eqn:Hb; [by rewrite lookup_insert_eq|done].
      * by rewrite lookup_insert_eq.
    + rewrite (lookup_insert_ne seen) by done.
      destruct (merged !! k) as [old|].
      * destruct (bool_decide (old = VNone) || bool_decide (old = VStr ""));
          [by rewrite lookup_insert_ne|done].
      * by rewrite lookup_insert_ne.
Qed.

(** X11. latest_wins: every field of the merged record holds the second
    record's value when that record has the field with a value that is
    neither [None] nor the empty string, and the first record's value (or
    no field at all, when the first record lacks it) otherwise. *)
Theorem latest_wins_contract (record1 record2 : Series) (key : string) :
  (forall v, record2 !! key = Some v -> blank v = false ->
             _merge_latest_wins record1 record2 !! key = Some v)
  /\ (forall v, record2 !! key = Some v -> blank v = true ->
                _merge_latest_wins record1 record2 !! key = record1 !! key)
  /\ (record2 !! key = None ->
      _merge_latest_wins record1 record2 !! key = record1 !! key).
Proof.
  rewrite merge_latest_wins_lookup. repeat split.
  - by intros v -> ->.
  - by intros v -> ->.
  - by intros ->.
Qed.

(** X12. first_wins: every field of the merged record holds the first
    record's value when that record has the field with a value that is
    neither [None] nor the empty string; otherwise it holds the second
    record's value when the second record has the field, and what the
    first record holds when it has not. *)
Theorem first_wins_contract (record1 record2 : Series) (key : string) :
  (forall v, record1 !! key = Some v -> blank v = false ->
             _merge_first_wins record1 record2 !! key = Some v)
  /\ (forall v v2, record1 !! key = Some v -> blank v = true ->
                   record2 !! key = Some v2 ->
                   _merge_first_wins record1 record2 !! key = Some v2)
  /\ (forall v, record1 !! key = Some v -> blank v = true ->
                record2 !! key = None ->
                _merge_first_wins record1 record2 !! key = Some v)
  /\ (record1 !! key = None ->
      _merge_first_wins record1 record2 !! key = record2 !! key).
Proof.
  rewrite merge_first_wins_lookup. repeat split.
  - by intros v -> ->.
  - by intros v v2 -> -> ->.
  - by intros v -> -> ->.
  - by intros ->.
Qed.

(** X13. The two overlay strategies mirror each other: when every field of
    the second record is a field of the first (as for two rows of one
    frame), latest_wins of (a, b) is first_wins of (b, a). *)
Theorem latest_wins_is_first_wins_swapped (record1 record2 : Series) :
  dom record2 ⊆ dom record1 ->
  _merge_latest_wins record1 record2 = _merge_first_wins record2 record1.
Proof.
  intros Hdom. apply map_eq. intros key.
  rewrite merge_latest_wins_lookup, merge_first_wins_lookup.
  destruct (record2 !! key) as [v2|] eqn:E2; [|done].
  destruct (blank v2); [|done].
  destruct (record1 !! key) as [v1|] eqn:E1; [done|].
  assert (key ∈ dom record1) as Hk by (apply Hdom; by apply elem_of_dom).
  apply elem_of_dom in Hk as [? Hk]. congruence.
Qed.

(** X14. No strategy, known or unknown, drops a field of the first record
    or invents a field that neither record has. *)
Theorem merge_strategy_fields merge_strategy (record1 record2 : Series) :
  dom record1 ⊆ dom (apply_strategy merge_strategy record1 record2)
  /\ dom (apply_strategy merge_strategy record1 record2)
     ⊆ dom record1 ∪ dom record2.
Proof.
  unfold apply_strategy. repeat case_bool_decide.
  - split; intros key; rewrite ?elem_of_union, !elem_of_dom,
      merge_latest_wins_lookup.
    + intros [v1 ->]. destruct (record2 !! key) as [v2|]; [|by eexists].
      destruct (blank v2); by eexists.
    + destruct (record2 !! key) as [v2|]; [|by left]. by right.
  - split; intros key; rewrite ?elem_of_union, !elem_of_dom,
      merge_first_wins_lookup.
    + intros [v1 ->]. destruct (blank v1); [|by eexists].
      destruct (record2 !! key); by eexists.
    + destruct (record1 !! key) as [v1|]; [by left|by right].
  - split; intros key Hk.
    + destruct (merge_concatenate_lookup record1 record2 key) as [Hin _].
      apply elem_of_dom. rewrite Hin; [by eexists|].
      apply elem_of_union. by left.
    + destruct (decide (key ∈ dom record1 ∪ dom record2)) as [|Hn]; [done|].
      destruct (merge_concatenate_lookup record1 record2 key) as [_ Hnone].
      apply elem_of_dom in Hk as [v Hv]. rewrite Hnone in Hv; done.
  - split; [done|]. apply union_subseteq_l.
Qed.

Lemma length_claimed_pairs (matches : list Match) :
  forall claimed : gset nat,
    length (claimed_pairs claimed matches) <= length matches.
Proof.
  induction matches as [|m matches IH]; intros claimed; [done|].
  cbn [claimed_pairs]. destruct (bool_decide _ || bool_decide _).
  - specialize (IH claimed). cbn [length]. lia.
  - specialize (IH ({[entity_1_index m; entity_2_index m]} ∪ claimed)).
    cbn [length]. lia.
Qed.

Lemma NoDup_lt_length (l : list nat) (n : nat) :
  NoDup l -> (forall p, p ∈ l -> p < n) -> length l <= n.
Proof.
  intros Hnd Hlt. trans (length (seq 0 n)); [|by rewrite length_seq].
  apply submseteq_length, NoDup_submseteq; [done|].
  intros p Hp. apply elem_of_seq. specialize (Hlt p Hp). lia.
Qed.

(** X15. A record takes part in at most one merge: over candidates with
    i < j inside the frame, the merge loop ends with twice as many claimed
    positions as merged records, all of them positions of the frame, and
    with at most one merged record per candidate. *)
Theorem each_position_merged_at_most_once
        (df : DataFrame) matches merge_strategy merged (processed : gset nat) :
  Forall (fun m => entity_1_index m < entity_2_index m < length df) matches ->
  foldM (merge_step df merge_strategy) ([], ∅) matches
  = inr (merged, processed) ->
  size processed = 2 * length merged
  /\ length merged <= length matches
  /\ (forall p, p ∈ processed -> p < length df)
  /\ 2 * length merged <= length df.
Proof.
  intros Hm Hrun.
  assert (Forall (match_in_range df) matches) as Hrange.
  { eapply Forall_impl; [exact Hm|]. cbn beta. intros m [? ?]. split; lia. }
  assert (Forall (fun m => entity_1_index m < entity_2_index m) matches)
    as Hlt.
  { eapply Forall_impl; [exact Hm|]. cbn beta. intros m [? ?]. lia. }
  rewrite (merge_loop_claimed df merge_strategy matches Hrange [] ∅) in Hrun.
  injection Hrun as <- <-.
  set (pairs := claimed_pairs ∅ matches).
  destruct (claimed_indices_fresh matches Hlt ∅) as [Hnd _]. fold pairs in Hnd.
  assert (forall p, p ∈ claimed_indices pairs -> p < length df) as Hin.
  { intros p Hp. by eapply claimed_indices_lt. }
  rewrite (right_id_L ∅ (∪)), size_list_to_set by done.
  cbn [app]. rewrite length_fmap, claimed_indices_length.
  split; [done|]. split; [apply length_claimed_pairs|]. split.
  - intros p Hp. apply Hin. by apply elem_of_list_to_set in Hp.
  - rewrite <- claimed_indices_length. by apply NoDup_lt_length.
Qed.

Lemma iloc_or_raise_ge (df : DataFrame) (i : nat) :
  length df <= i -> iloc_or_raise df i = inl IndexError.
Proof.
  intros Hi. unfold iloc_or_raise, iloc.
  by rewrite (lookup_ge_None_2 df i Hi).
Qed.

Lemma merge_loop_raises df merge_strategy matches :
  forall acc (claimed : gset nat),
    foldM (merge_step df merge_strategy) (acc, claimed) matches
    = inl IndexError
    <-> Exists (fun m => ~ match_in_range df m) (claimed_pairs claimed matches).
Proof.
  induction matches as [|m matches IH]; intros acc claimed.
  - cbn. split; [done|]. intros H. by apply Exists_nil in H.
  - cbn [foldM claimed_pairs].
    assert (forall st, foldM (merge_step df merge_strategy) st matches
                       = inl IndexError
                       <-> Exists (fun m => ~ match_in_range df m)
                             (claimed_pairs st.2 matches)) as IH'.
    { intros [acc' claimed']. apply IH. }
    set (continue := fun st => foldM (merge_step df merge_strategy) st matches)
      in *.
    unfold merge_step.
    destruct (bool_decide _ || bool_decide _);
      [cbn [mbind result_bind mret result_ret]; subst continue; apply IH'|].
    rewrite Exists_cons. unfold match_in_range at 1.
    destruct (decide (entity_1_index m < length df)) as [H1|H1].
    + destruct (iloc_or_raise_lt df _ H1) as (r1 & _ & ->).
      destruct (decide (entity_2_index m < length df)) as [H2|H2].
      * destruct (iloc_or_raise_lt df _ H2) as (r2 & _ & ->).
        cbn [mbind result_bind mret result_ret]. subst continue. cbn beta.
        rewrite IH'. cbn [snd].
        split; [by right|]. intros [[]|]; [done|done].
      * rewrite (iloc_or_raise_ge df (entity_2_index m)) by lia.
        cbn. split; [|done]. intros _. left. intros [_ ?]. lia.
    + rewrite (iloc_or_raise_ge df (entity_1_index m)) by lia.
      cbn. split; [|done]. intros _. left. intros [? _]. lia.
Qed.

(** X16. For candidates whose indices are positions counted from the start
    of the frame (natural numbers, as the matcher produces them; the
    negative positions of [df.iloc] are outside the model), the merge
    raises IndexError exactly when a candidate that would be accepted
    (neither index claimed by an earlier accepted candidate) has an index
    at or beyond the length of the frame; a candidate that is skipped is
    never looked up. *)
Theorem merge_raises_on_index_outside_frame
        (df : DataFrame) matches merge_strategy :
  _merge_matched_entities df matches merge_strategy = inl IndexError
  <-> Exists (fun m => ~ match_in_range df m) (claimed_pairs ∅ matches).
Proof.
  rewrite <- (merge_loop_raises df merge_strategy matches [] ∅).
  unfold _merge_matched_entities.
  destruct (foldM _ _ matches) as [[]|[merged processed]]; cbn; [done|].
  split; discriminate.
Qed.

(** ** More on the confidence summary *)

Lemma confidence_bands_count (scores : list Q) :
  length (filter (fun s => negb (Qle_bool s (9 # 10)) = true) scores)
  + length (filter (fun s => Qle_bool (7 # 10) s && Qle_bool s (9 # 10) = true)
              scores)
  + length (filter (fun s => negb (Qle_bool (7 # 10) s) = true) scores)
  = length scores.
Proof.
  induction scores as [|s scores IH]; [done|].
  rewrite !filter_cons. cbn [length]. rewrite <- IH.
  destruct (Qle_bool s (9 # 10)) eqn:E9, (Qle_bool (7 # 10) s) eqn:E7;
    cbn [negb andb]; repeat case_decide; try done; cbn [length]; try lia.
  exfalso.
  assert (~ (s <= 9 # 10)%Q) as H9
      by (rewrite <- Qle_bool_iff; congruence).
  assert (~ (7 # 10 <= s)%Q) as H7
      by (rewrite <- Qle_bool_iff; congruence).
  apply Qnot_le_lt in H9, H7.
  assert ((7 # 10) < (9 # 10))%Q as H79 by done.
  apply (Qlt_irrefl s). eapply Qlt_trans; [exact H7|].
  by eapply Qlt_trans.
Qed.

(** X17. The three confidence bands partition the matches: for a
    non-empty match list the summary holds the three band counts, and they
    add up to the number of matches. *)
Theorem confidence_bands_partition (np_std : list Q -> Q) m matches :
  exists high medium low,
    _calculate_confidence_scores np_std (m :: matches)
      !! "high_confidence_count" = Some high
    /\ _calculate_confidence_scores np_std (m :: matches)
         !! "medium_confidence_count" = Some medium
    /\ _calculate_confidence_scores np_std (m :: matches)
         !! "low_confidence_count" = Some low
    /\ (high + medium + low
        == inject_Z (Z.of_nat (length (m :: matches))))%Q.
Proof.
  unfold _calculate_confidence_scores.
  do 3 eexists. split; [|split; [|split]].
  - rewrite !lookup_insert_ne by done. apply lookup_insert_eq.
  - rewrite !lookup_insert_ne by done. apply lookup_insert_eq.
  - rewrite !lookup_insert_ne by done. apply lookup_insert_eq.
  - unfold count_if. rewrite <- !inject_Z_plus, <- !Nat2Z.inj_add.
    rewrite confidence_bands_count. by rewrite length_fmap.
Qed.

(** ** More on reconciliation and the job history *)

Section ReconcileExtras.

Variable fuzz_ratio : string -> string -> Z.
Variable np_std : list Q -> Q.

Lemma deduplicate_dataframe_sublist (df : DataFrame) config :
  _deduplicate_dataframe fuzz_ratio df config `sublist_of` df.
Proof.
  unfold _deduplicate_dataframe.
  destruct (default [] (cfg_similarity_fields config));
    [apply drop_duplicates_sublist|].
  etrans; [apply sublist_filter|apply drop_duplicates_sublist].
Qed.

(** X18. The counts a reconciliation reports are consistent with each
    other: the original count is the number of input records, the
    deduplicated count never exceeds it and equals it when deduplication
    is off, the matched pairs are at most d(d-1)/2 for d deduplicated
    records, and the confidence summary is empty exactly when no pair
    matched. *)
Theorem reconcile_counts env self data config entity_type (t : Q)
        deduplication merge_strategy res :
  (reconcile_entities fuzz_ratio np_std env self data config entity_type t
     deduplication merge_strategy).2 = inr res ->
  original_records res = length data
  /\ deduplicated_records res <= original_records res
  /\ (deduplication = false ->
      deduplicated_records res = original_records res)
  /\ 2 * matched_pairs res
     <= deduplicated_records res * (deduplicated_records res - 1)
  /\ (confidence_scores res = ∅ <-> matched_pairs res = 0).
Proof.
  unfold reconcile_entities.
  set (df := if deduplication then _ else _).
  set (matches := _find_entity_matches fuzz_ratio df config t).
  destruct (_merge_matched_entities df matches merge_strategy)
    as [e|merged]; [done|].
  cbn. intros [= <-]. cbn.
  split; [apply length_pd_DataFrame|]. split; [|split; [|split]].
  - unfold df. destruct deduplication; [|done].
    apply sublist_length, deduplicate_dataframe_sublist.
  - intros Hd. unfold df. by rewrite Hd.
  - apply length_find_entity_matches.
  - destruct matches as [|m matches']; [done|]. split; [|done].
    intros Hempty.
    assert (dom (_calculate_confidence_scores np_std (m :: matches'))
            = ∅) as Hdom by (by rewrite Hempty, dom_empty_L).
    unfold _calculate_confidence_scores in Hdom.
    rewrite dom_insert_L in Hdom.
    exfalso. eapply (not_elem_of_empty (C:=gset string)).
    rewrite <- Hdom. apply elem_of_union_l. by apply elem_of_singleton.
Qed.

End ReconcileExtras.

Lemma first_with_id_spec (history : list Job) (id : string) :
  match first_with_id history id with
  | Some job =>
      exists before after,
        history = before ++ job :: after
        /\ job_reconciliation_id job = id
        /\ Forall (fun j => job_reconciliation_id j <> id) before
  | None => Forall (fun j => job_reconciliation_id j <> id) history
  end.
Proof.
  induction history as [|j history IH]; [constructor|].
  cbn [first_with_id]. case_bool_decide as Hj.
  - exists [], history. by repeat split.
  - destruct (first_with_id history id) as [job|].
    + destruct IH as (before & after & -> & Hid & Hbefore).
      exists (j :: before), after. repeat split; [done|by constructor].
    + by constructor.
Qed.

Lemma first_with_id_app (history : list Job) (job : Job) (id : string) :
  first_with_id (history ++ [job]) id =
  match first_with_id history id with
  | Some found => Some found
  | None =>
      if bool_decide (job_reconciliation_id job = id) then Some job else None
  end.
Proof.
  induction history as [|j history IH].
  - cbn. by case_bool_decide.
  - rewrite <- app_comm_cons. cbn [first_with_id].
    by destruct (bool_decide (job_reconciliation_id j = id)).
Qed.

(** X19. Lookup by id returns the first job of the history with that id,
    and nothing exactly when no job has it. *)
Theorem get_reconciliation_by_id_first (self : ZinggClient) (id : string) :
  match get_reconciliation_by_id self id with
  | Some job =>
      exists before after,
        reconciliation_history self = before ++ job :: after
        /\ job_reconciliation_id job = id
        /\ Forall (fun j => job_reconciliation_id j <> id) before
  | None =>
      Forall (fun j => job_reconciliation_id j <> id)
             (reconciliation_history self)
  end.
Proof. apply first_with_id_spec. Qed.

(** X20. A completed reconciliation can be looked up afterwards: the job
    it appended carries the id and the counts of the returned result, it
    answers the lookup of that id unless an older job already has the id,
    and the lookup of every other id is unchanged. *)
Theorem reconcile_then_lookup
        (fuzz_ratio : string -> string -> Z) (np_std : list Q -> Q)
        env self data config entity_type (t : Q) deduplication
        merge_strategy self' res :
  reconcile_entities fuzz_ratio np_std env self data config entity_type t
    deduplication merge_strategy = (self', inr res) ->
  exists job,
    job_reconciliation_id job = reconciliation_id res
    /\ job_original_records job = original_records res
    /\ job_deduplicated_records job = deduplicated_records res
    /\ job_matched_pairs job = matched_pairs res
    /\ forall id,
         get_reconciliation_by_id self' id =
         match get_reconciliation_by_id self id with
         | Some older => Some older
         | None =>
             if bool_decide (reconciliation_id res = id) then Some job
             else None
         end.
Proof.
  unfold reconcile_entities.
  destruct (_merge_matched_entities _ _ merge_strategy) as [e|merged]; [done|].
  intros [= <- <-].
  match goal with
  | |- context [reconciliation_history self ++ [?j]] => exists j
  end.
  cbn. split; [done|]. split; [done|]. split; [done|]. split; [done|].
  intros id. unfold get_reconciliation_by_id. cbn.
  apply first_with_id_app.
Qed.

Lemma py_slice_nonneg {A} (l : list A) (start stop : Z) :
  (0 <= start)%Z -> (start <= stop)%Z ->
  py_slice l start stop
  = take (Z.to_nat (stop - start)) (drop (Z.to_nat start) l).
Proof.
  intros Hstart Hstop. unfold py_slice.
  rewrite (proj2 (Z.ltb_ge start 0)), (proj2 (Z.ltb_ge stop 0)) by lia.
  destruct (decide (Z.of_nat (length l) <= start)%Z) as [Hout|Hin].
  - rewrite !drop_ge by lia. by rewrite !take_nil.
  - rewrite (Z.min_l start) by lia.
    destruct (decide (stop <= Z.of_nat (length l))%Z) as [Hs|Hs].
    + by rewrite (Z.min_l stop) by lia.
    + rewrite (Z.min_r stop) by lia.
      rewrite !take_ge; [done|rewrite length_drop; lia..].
Qed.

(** X21. Paging the history: for a non-negative offset and limit a page is
    the [limit] jobs that follow the first [offset] ones, it never holds
    more than [limit] jobs, it is empty from the end of the history on, and
    consecutive pages join into the page of their joint size. *)
Theorem history_pages (self : ZinggClient) (limit offset : Z) :
  (0 <= offset)%Z -> (0 <= limit)%Z ->
  get_reconciliation_history self limit offset
  = take (Z.to_nat limit)
         (drop (Z.to_nat offset) (reconciliation_history self))
  /\ (Z.of_nat (length (get_reconciliation_history self limit offset))
      <= limit)%Z
  /\ ((Z.of_nat (length (reconciliation_history self)) <= offset)%Z ->
      get_reconciliation_history self limit offset = [])
  /\ (forall limit', (0 <= limit')%Z ->
        get_reconciliation_history self limit offset
        ++ get_reconciliation_history self limit' (offset + limit)
        = get_reconciliation_history self (limit + limit') offset).
Proof.
  intros Ho Hl.
  assert (forall lim off, (0 <= off)%Z -> (0 <= lim)%Z ->
            get_reconciliation_history self lim off
            = take (Z.to_nat lim)
                   (drop (Z.to_nat off) (reconciliation_history self)))
    as Hpage.
  { intros lim off ? ?. unfold get_reconciliation_history.
    rewrite py_slice_nonneg by lia. do 2 f_equal. lia. }
  split; [by apply Hpage|]. split; [|split].
  - rewrite Hpage, length_take by done. lia.
  - intros Hout. rewrite Hpage by done. rewrite drop_ge by lia.
    apply take_nil.
  - intros limit' Hl'. rewrite !Hpage by lia.
    rewrite !Z2Nat.inj_add by done.
    rewrite <- drop_drop. apply take_take_drop.
Qed.

(** X22. A negative limit is not rejected: from offset 0 it returns every
    job of the history but the last [-limit] ones. *)
Theorem history_negative_limit (self : ZinggClient) (limit : Z) :
  (limit < 0)%Z ->
  get_reconciliation_history self limit 0
  = take (length (reconciliation_history self) - Z.to_nat (- limit))
         (reconciliation_history self).
Proof.
  intros Hl. unfold get_reconciliation_history, py_slice.
  rewrite Z.add_0_l. rewrite (proj2 (Z.ltb_lt limit 0)) by done.
  cbn [Z.ltb Z.compare]. rewrite Z.min_l by lia.
  cbn [Z.to_nat drop]. f_equal. lia.
Qed.

(** ** Validation of matches *)

Section ValidationProperties.

Variable float_str : Q -> string.

Lemma validate_matches_fmap (matches : list Match) (rules : Rules) :
  validate_matches float_str matches rules
  = validate_match float_str rules <$> matches.
Proof.
  unfold validate_matches.
  assert (forall acc,
             foldl (fun validated_matches m =>
                      validated_matches ++ [validate_match float_str rules m])
                   acc matches
             = acc ++ (validate_match float_str rules <$> matches)) as H.
  { induction matches as [|m matches IH]; intros acc.
    - cbn. by rewrite app_nil_r.
    - cbn [foldl]. rewrite IH, fmap_cons, <- app_assoc. done. }
  apply H.
Qed.

(** X23. Validation keeps every match, in order and unchanged, and marks
    each one: a match is valid exactly when its score reaches the minimum
    score of the rules (0.8 when the rules give none), and it carries an
    error message exactly when it is not valid. *)
Theorem validate_matches_marks_each_match (matches : list Match) (rules : Rules) :
  let min_score := default (8 # 10)%Q (rule_min_similarity_score rules) in
  validated <$> validate_matches float_str matches rules = matches
  /\ Forall (fun v =>
               (is_valid v = true <-> (min_score <= similarity_score (validated v))%Q)
               /\ (validation_errors v = [] <-> is_valid v = true))
            (validate_matches float_str matches rules).
Proof.
  intros min_score. rewrite validate_matches_fmap. split.
  - rewrite <- list_fmap_compose. induction matches as [|m matches IH]; [done|].
    rewrite fmap_cons, IH. f_equal. unfold validate_match. cbn.
    by destruct (negb _).
  - apply Forall_fmap, Forall_forall. intros m _. cbn.
    unfold validate_match. fold min_score.
    rewrite <- Qle_bool_iff.
    destruct (Qle_bool min_score (similarity_score m)) eqn:E; cbn;
      rewrite ?E; split; split; done.
Qed.

(** X24. Matching and validation compose: every match that [find_matches]
    returns at threshold t is valid under rules whose minimum score is at
    most t. *)
Theorem found_matches_are_valid
        (fuzz_ratio : string -> string -> Z) data config (t : Q) rules :
  (default (8 # 10)%Q (rule_min_similarity_score rules) <= t)%Q ->
  Forall (fun v => is_valid v = true /\ validation_errors v = [])
         (validate_matches float_str
            (find_matches fuzz_ratio data config t) rules).
Proof.
  intros Hmin. rewrite validate_matches_fmap. apply Forall_fmap.
  unfold find_matches.
  eapply Forall_impl; [apply find_entity_matches_ok|].
  intros m (_ & ri & rj & _ & _ & _ & Hs). cbn.
  unfold validate_match.
  by rewrite (Qle_bool_trans _ _ _ Hmin Hs).
Qed.

End ValidationProperties.

(** ** The HTTP layer *)

(** X25. [GET /reconciliations/{id}] answers 404 exactly when no job of the
    history has the id, and otherwise returns a job with that id. *)
Theorem get_reconciliation_not_found (zingg_client : ZinggClient) (id : string) :
  ((exists detail, get_reconciliation zingg_client id = HTTPException 404 detail)
   <-> Forall (fun j => job_reconciliation_id j <> id)
              (reconciliation_history zingg_client))
  /\ (forall job, get_reconciliation zingg_client id = Ok job ->
                  job ∈ reconciliation_history zingg_client
                  /\ job_reconciliation_id job = id).
Proof.
  unfold get_reconciliation, get_reconciliation_by_id.
  pose proof (first_with_id_spec (reconciliation_history zingg_client) id) as H.
  destruct (first_with_id _ id) as [job|].
  - destruct H as (before & after & Hh & Hid & Hbefore). split.
    + split; [by intros [? ?]|]. intros Hall. exfalso.
      rewrite Hh in Hall. apply Forall_app in Hall as [_ Hall].
      apply Forall_cons in Hall as [Hne _]. done.
    + intros job' [= <-]. split; [|done]. rewrite Hh.
      apply elem_of_app. right. by left.
  - split; [split; [done|by eexists]|done].
Qed.

(** X26. Without deduplication the frame is indexed by position and the
    reconciliation conserves the records: it returns one merged record per
    accepted pair followed by the rows no pair has claimed, every input
    position is the source of exactly one of them, and their number is the
    number of input records minus the number of accepted pairs. *)
Theorem reconcile_without_dedup_conserves
        (fuzz_ratio : string -> string -> Z) (np_std : list Q -> Q)
        env self data config entity_type (t : Q) merge_strategy :
  let df := pd_DataFrame data in
  let pairs :=
    claimed_pairs ∅ (_find_entity_matches fuzz_ratio df config t) in
  let rest := unclaimed df (claimed_indices pairs) in
  exists res,
    (reconcile_entities fuzz_ratio np_std env self data config entity_type t
       false merge_strategy).2 = inr res
    /\ merged_records res
       = (merged_record_of df merge_strategy <$> pairs)
         ++ ((fun pr => to_dict pr.2) <$> rest)
    /\ claimed_indices pairs ++ (fst <$> rest) ≡ₚ seq 0 (length data)
    /\ length (merged_records res) = length data - length pairs.
Proof.
  intros df pairs rest.
  destruct (merge_conservation_fresh_frame fuzz_ratio data config t
              merge_strategy) as (Hrun & Hperm & Hlen).
  fold df pairs rest in Hrun, Hperm, Hlen.
  unfold reconcile_entities. fold df. rewrite Hrun. cbn.
  eexists. split; [reflexivity|]. cbn. split; [done|]. split; [done|].
  by rewrite length_app, !length_fmap.
Qed.

(** * The further properties on concrete inputs *)

Lemma non_contributing_field_witness :
  contributes john_1 john_3 "phone" = false
  /\ _calculate_record_similarity lcs_ratio john_1 john_3
       (["name"] ++ "phone" :: ["email"])
     = _calculate_record_similarity lcs_ratio john_1 john_3
         (["name"] ++ ["email"]).
Proof.
  assert (contributes john_1 john_3 "phone" = false) as Hc by (by vm_compute).
  split; [exact Hc|].
  exact (non_contributing_field_is_ignored lcs_ratio john_1 john_3
           ["name"] ["email"] "phone" Hc).
Defined.

Lemma lcs_ratio_refl (a : string) : a <> "" -> lcs_ratio a a = 100%Z.
Proof. intros _. unfold lcs_ratio. by rewrite bool_decide_eq_true_2. Qed.

Lemma equal_normalized_records_witness :
  (forall a, a <> "" -> lcs_ratio a a = 100%Z)
  /\ (exists f, f ∈ ["name"; "email"] /\ contributes john_1 john_2 f = true)
  /\ (_calculate_record_similarity lcs_ratio john_1 john_2 ["name"; "email"]
      == 1)%Q.
Proof.
  assert (exists f, f ∈ ["name"; "email"] /\ contributes john_1 john_2 f = true)
    as Hc by (exists "name"; split; [by left|by vm_compute]).
  split; [exact lcs_ratio_refl|]. split; [exact Hc|].
  apply (equal_normalized_records_score_one lcs_ratio john_1 john_2
           ["name"; "email"] lcs_ratio_refl); [|exact Hc].
  intros f v1 v2 Hf H1 H2.
  apply elem_of_cons in Hf as [->|Hf];
    [|apply elem_of_cons in Hf as [->|Hf]; [|by apply elem_of_nil in Hf]];
    vm_compute in H1, H2; injection H1 as <-; injection H2 as <-;
    by vm_compute.
Defined.

Lemma find_entity_matches_spec_witness :
  let df := pd_DataFrame [john_1; john_2; ann] in
  let config := match_on ["name"] in
  let m := candidate lcs_ratio ["name"] 0 (fill_row (columns [john_1; john_2; ann]) john_1)
             1 (fill_row (columns [john_1; john_2; ann]) john_2) in
  default [] (cfg_matching_fields config) = ["name"]
  /\ m ∈ _find_entity_matches lcs_ratio df config (8 # 10).
Proof.
  intros df config m. split; [reflexivity|].
  apply (find_entity_matches_spec lcs_ratio df config (8 # 10) "name" [] m
           eq_refl).
  exists 0, 1, (fill_row (columns [john_1; john_2; ann]) john_1),
    (fill_row (columns [john_1; john_2; ann]) john_2).
  repeat split; [lia|by vm_compute..].
Defined.

Lemma reconcile_after_dedup_witness :
  let config := dedup_and_match_on ["name"] (8 # 10) in
  cfg_similarity_fields config = Some ["name"]
  /\ cfg_matching_fields config = Some ["name"]
  /\ (default (9 # 10)%Q (cfg_similarity_threshold config) <= 8 # 10)%Q
  /\ exists res,
       (reconcile_entities lcs_ratio std_placeholder sample_env new_client
          [john_1; john_2; ann] config "customer" (8 # 10) true
          "latest_wins").2 = inr res
       /\ matched_pairs res = 0
       /\ merged_records res
          = to_dict <$> deduplicate_data lcs_ratio [john_1; john_2; ann] config
       /\ confidence_scores res = ∅.
Proof.
  intros config.
  assert (default (9 # 10)%Q (cfg_similarity_threshold config) <= 8 # 10)%Q
    as Ht by (by vm_compute).
  split; [reflexivity|]. split; [reflexivity|]. split; [exact Ht|].
  exact (reconcile_after_dedup_finds_no_match lcs_ratio std_placeholder
           sample_env new_client [john_1; john_2; ann] config "customer"
           (8 # 10) "latest_wins" "name" [] eq_refl eq_refl Ht).
Defined.

Lemma latest_wins_swapped_witness :
  dom bob_again ⊆ dom bob
  /\ _merge_latest_wins bob bob_again = _merge_first_wins bob_again bob.
Proof.
  assert (dom bob_again ⊆ dom bob) as Hdom.
  { assert (dom bob_again = dom bob) as -> by (by vm_compute). done. }
  split; [exact Hdom|].
  exact (latest_wins_is_first_wins_swapped bob bob_again Hdom).
Defined.

Lemma each_position_merged_witness :
  let df := pd_DataFrame [ann; bob; bob_again] in
  let matches := [sample_match 1 2 1%Q; sample_match 0 2 (9 # 10)%Q] in
  Forall (fun m => entity_1_index m < entity_2_index m < length df) matches
  /\ exists merged processed,
       foldM (merge_step df "first_wins") ([], ∅) matches
       = inr (merged, processed)
       /\ size processed = 2 * length merged
       /\ length merged <= length matches
       /\ (forall p, p ∈ processed -> p < length df)
       /\ 2 * length merged <= length df.
Proof.
  intros df matches.
  assert (Forall (fun m => entity_1_index m < entity_2_index m < length df)
                 matches) as Hm.
  { repeat constructor; cbn; lia. }
  assert (Forall (match_in_range df) matches) as Hrange.
  { repeat constructor; cbn; lia. }
  split; [exact Hm|].
  destruct (merge_loop_total df "first_wins" matches Hrange ([], ∅))
    as [[merged processed] Hrun].
  exists merged, processed. split; [exact Hrun|].
  exact (each_position_merged_at_most_once df matches "first_wins" merged
           processed Hm Hrun).
Defined.

Lemma reconcile_counts_witness :
  exists res,
    (reconcile_entities lcs_ratio std_placeholder sample_env new_client
       [ann; ann; bob; bob_again] (match_on ["name"]) "customer" (8 # 10)
       true "latest_wins").2 = inr res
    /\ original_records res = 4
    /\ deduplicated_records res <= original_records res
    /\ (true = false -> deduplicated_records res = original_records res)
    /\ 2 * matched_pairs res
       <= deduplicated_records res * (deduplicated_records res - 1)
    /\ (confidence_scores res = ∅ <-> matched_pairs res = 0).
Proof.
  destruct (reconcile_entities_completes lcs_ratio std_placeholder sample_env
              new_client [ann; ann; bob; bob_again] (match_on ["name"])
              "customer" (8 # 10) true "latest_wins")
    as (res & job & Hrun & _).
  exists res.
  assert ((reconcile_entities lcs_ratio std_placeholder sample_env new_client
             [ann; ann; bob; bob_again] (match_on ["name"]) "customer"
             (8 # 10) true "latest_wins").2 = inr res) as Hres
      by (by rewrite Hrun).
  split; [exact Hres|].
  exact (reconcile_counts lcs_ratio std_placeholder sample_env new_client
           [ann; ann; bob; bob_again] (match_on ["name"]) "customer" (8 # 10)
           true "latest_wins" res Hres).
Defined.

Lemma reconcile_then_lookup_witness :
  exists self' res job,
    reconcile_entities lcs_ratio std_placeholder sample_env sample_client
      [john_1; john_2] (match_on ["name"]) "customer" (8 # 10) true
      "latest_wins" = (self', inr res)
    /\ job_reconciliation_id job = reconciliation_id res
    /\ job_original_records job = original_records res
    /\ job_deduplicated_records job = deduplicated_records res
    /\ job_matched_pairs job = matched_pairs res
    /\ forall id,
         get_reconciliation_by_id self' id =
         match get_reconciliation_by_id sample_client id with
         | Some older => Some older
         | None =>
             if bool_decide (reconciliation_id res = id) then Some job
             else None
         end.
Proof.
  destruct (reconcile_entities_completes lcs_ratio std_placeholder sample_env
              sample_client [john_1; john_2] (match_on ["name"])
              "customer" (8 # 10) true "latest_wins")
    as (res & job0 & Hrun & _).
  destruct (reconcile_then_lookup lcs_ratio std_placeholder sample_env
              sample_client [john_1; john_2] (match_on ["name"]) "customer"
              (8 # 10) true "latest_wins" _ res Hrun) as [job Hjob].
  eexists _, res, job. split; [exact Hrun|exact Hjob].
Defined.

Lemma history_pages_witness :
  (0 <= 1)%Z /\ (0 <= 2)%Z
  /\ get_reconciliation_history sample_client 2 1
     = [sample_job "b" 2; sample_job "c" 3]
  /\ get_reconciliation_history sample_client 2 1
     ++ get_reconciliation_history sample_client 5 (1 + 2)
     = get_reconciliation_history sample_client (2 + 5) 1.
Proof.
  assert (0 <= 1)%Z as Ho by lia. assert (0 <= 2)%Z as Hl by lia.
  split; [exact Ho|]. split; [exact Hl|].
  destruct (history_pages sample_client 2 1 Ho Hl) as (Hpage & _ & _ & Hjoin).
  split; [rewrite Hpage; reflexivity|]. apply Hjoin. lia.
Defined.

Lemma history_negative_limit_witness :
  (-1 < 0)%Z
  /\ get_reconciliation_history sample_client (-1) 0
     = [sample_job "a" 1; sample_job "b" 2].
Proof.
  assert (-1 < 0)%Z as Hl by lia. split; [exact Hl|].
  rewrite (history_negative_limit sample_client (-1) Hl). reflexivity.
Defined.

Lemma found_matches_are_valid_witness :
  let rules := {| rule_min_similarity_score := None |} in
  (default (8 # 10)%Q (rule_min_similarity_score rules) <= 8 # 10)%Q
  /\ Forall (fun v => is_valid v = true /\ validation_errors v = [])
       (validate_matches float_placeholder
          (find_matches lcs_ratio [john_1; john_2; ann] (match_on ["name"])
             (8 # 10))
          rules).
Proof.
  intros rules.
  assert (default (8 # 10)%Q (rule_min_similarity_score rules) <= 8 # 10)%Q
    as Hmin by (by vm_compute).
  split; [exact Hmin|].
  exact (found_matches_are_valid float_placeholder lcs_ratio
           [john_1; john_2; ann] (match_on ["name"]) (8 # 10) rules Hmin).
Defined.
